(** * pixelgun / pxconvert: the two Photoshop conversion scripts

    [convert_img.js] and [convert_imgs.js] are ExtendScript programs that
    drive the host application: open a camera RAW file, convert its colour
    profile, save it as TIFF, close the document.  The development embeds

    - the JavaScript string operations the scripts use ([split], [pop],
      indexing, [decodeURI], [+]) over lists of UTF-16 code units;
    - the host application as an interface of state-passing operations that
      may throw, with the scripts written against that interface and every
      host call recorded in a trace;
    - a small reference host (a file system of directories and files plus a
      table of open documents) on which runs can be evaluated. *)

From Stdlib Require Import NArith String Ascii.
From stdpp Require Import base option list gmap.

Open Scope N_scope.

(** ** JavaScript values *)

(** A JavaScript string is a sequence of 16-bit code units. *)
Abbreviation jsstring := (list N).

(** String literals of the source, code unit by code unit. *)
Definition js (s : string) : jsstring :=
  map N_of_ascii (list_ascii_of_string s).

(** Exceptions that can end a script. *)
Inductive HostError :=
| InputNotFound | DecodeError | ColorConversionError | EncodeError | WriteError
| NoSuchDocument.

Inductive Error :=
| URIError
| TypeError
| OutOfFuel
| HostThrow (e : HostError).

Inductive Result (A : Type) :=
| Ok (a : A)
| Throw (e : Error).
Arguments Ok {A} a.
Arguments Throw {A} e.

Module JS.

(** [s.split(sep)] for a separator of one code unit (the scripts split on
    ['/'] and on ['.']): the pieces between the separators, in order; the
    empty string splits into one empty piece. *)
Fixpoint split (sep : N) (s : jsstring) : list jsstring :=
  match s with
  | [] => [[]]
  | c :: s' =>
      if c =? sep then [] :: split sep s'
      else match split sep s' with
           | [] => [[c]]
           | p :: ps => (c :: p) :: ps
           end
  end.

(** [a.pop()]: the last element, [undefined] on an empty array. *)
Definition pop {A} (a : list A) : option A := last a.

(** [a[i]]: [undefined] out of range. *)
Definition index {A} (a : list A) (i : nat) : option A := a !! i.

(** [x + '...'] where [x] may be [undefined]. *)
Definition to_string (x : option jsstring) : jsstring :=
  match x with
  | Some s => s
  | None => js "undefined"
  end.

(** *** decodeURI (ECMA-262, Decode with reservedSet = uriReserved + '#') *)

Definition percent : N := 37.
Definition slash : N := 47.
Definition dot : N := 46.

Definition reservedURISet : jsstring := js ";/?:@&=+$,#".

Definition hex_value (c : N) : option N :=
  if (48 <=? c) && (c <=? 57) then Some (c - 48)
  else if (65 <=? c) && (c <=? 70) then Some (c - 55)
  else if (97 <=? c) && (c <=? 102) then Some (c - 87)
  else None.

Definition in_set (c : N) (set : jsstring) : bool :=
  existsb (N.eqb c) set.

(** Number of leading one bits of an octet with the top bit set. *)
Definition leading_ones (B : N) : N :=
  if B <? 192 then 1
  else if B <? 224 then 2
  else if B <? 240 then 3
  else if B <? 248 then 4
  else 5.

Definition lead_payload (n B : N) : N :=
  if n =? 2 then N.land B 31
  else if n =? 3 then N.land B 15
  else N.land B 7.

(** Is [V], read from [n] octets, a code point in its shortest form? *)
Definition valid_code_point (n V : N) : bool :=
  if n =? 2 then 128 <=? V
  else if n =? 3 then (2048 <=? V) && negb ((55296 <=? V) && (V <=? 57343))
  else (65536 <=? V) && (V <=? 1114111).

(** The code units appended for code point [V]; [orig] is the escape text
    it was read from, kept when [V] is a reserved character. *)
Definition decoded_units (reservedSet : jsstring) (V : N) (orig : jsstring)
  : jsstring :=
  if V <? 65536 then
    if in_set V reservedSet then orig else [V]
  else
    let L := N.land (V - 65536) 1023 + 56320 in
    let H := N.land (N.shiftr (V - 65536) 10) 1023 + 55296 in
    [H; L].

(** Where the decoder stands between two escapes: outside a multi-octet
    sequence, or inside one of [n] octets with [more] still to read. *)
Inductive DecodeState :=
| Idle
| Pending (n : N) (more : nat) (V : N) (orig : jsstring).

Fixpoint Decode (reservedSet : jsstring) (st : DecodeState) (s : jsstring)
  : option jsstring :=
  match s with
  | [] => match st with Idle => Some [] | Pending _ _ _ _ => None end
  | c :: rest =>
      match st with
      | Idle =>
          if c =? percent then
            match rest with
            | h1 :: h2 :: rest' =>
                match hex_value h1, hex_value h2 with
                | Some a, Some b =>
                    let B := 16 * a + b in
                    if B <? 128 then
                      app (if in_set B reservedSet then [c; h1; h2] else [B])
                        <$> Decode reservedSet Idle rest'
                    else
                      let n := leading_ones B in
                      if (n =? 1) || (4 <? n) then None
                      else Decode reservedSet
                             (Pending n (N.to_nat n - 2) (lead_payload n B)
                                [c; h1; h2]) rest'
                | _, _ => None
                end
            | _ => None
            end
          else cons c <$> Decode reservedSet Idle rest
      | Pending n more V orig =>
          if c =? percent then
            match rest with
            | h1 :: h2 :: rest' =>
                match hex_value h1, hex_value h2 with
                | Some a, Some b =>
                    let B := 16 * a + b in
                    if N.land B 192 =? 128 then
                      let V' := V * 64 + N.land B 63 in
                      let orig' := orig ++ [c; h1; h2] in
                      match more with
                      | O =>
                          if valid_code_point n V' then
                            app (decoded_units reservedSet V' orig')
                              <$> Decode reservedSet Idle rest'
                          else None
                      | S more' =>
                          Decode reservedSet (Pending n more' V' orig') rest'
                      end
                    else None
                | _, _ => None
                end
            | _ => None
            end
          else None
      end
  end.

Definition decodeURI (uri : jsstring) : Result jsstring :=
  match Decode reservedURISet Idle uri with
  | Some s => Ok s
  | None => Throw URIError
  end.

End JS.

(** ** The host application's scripting interface *)

(** Enumerations of the host's scripting reference that the scripts name. *)
Inductive ColorSpaceType := ADOBERGB | COLORMATCHRGB | PROPHOTORGB | SRGB.
Inductive BitsPerChannelType := ONE | EIGHT | SIXTEEN | THIRTYTWO.
Inductive TIFFEncoding := NONE | JPEG | TIFFLZW | TIFFZIP.
Inductive Intent :=
| ABSOLUTECOLORIMETRIC | PERCEPTUAL | RELATIVECOLORIMETRIC | SATURATION.
Inductive SaveOptions :=
| DONOTSAVECHANGES | PROMPTTOSAVECHANGES | SAVECHANGES.

(** Option objects: a property the script has not assigned is [None], the
    host's default. *)
Record CameraRAWOpenOptions := {
  colorSpace : option ColorSpaceType;
  bitsPerChannel : option BitsPerChannelType
}.

Record TiffSaveOptions := {
  embedColorProfile : option bool;
  imageCompression : option TIFFEncoding
}.

Definition new_CameraRAWOpenOptions : CameraRAWOpenOptions :=
  {| colorSpace := None; bitsPerChannel := None |}.

Definition set_colorSpace (v : ColorSpaceType) (o : CameraRAWOpenOptions) :=
  {| colorSpace := Some v; bitsPerChannel := bitsPerChannel o |}.

Definition set_bitsPerChannel (v : BitsPerChannelType)
    (o : CameraRAWOpenOptions) :=
  {| colorSpace := colorSpace o; bitsPerChannel := Some v |}.

Definition new_TiffSaveOptions : TiffSaveOptions :=
  {| embedColorProfile := None; imageCompression := None |}.

Definition set_embedColorProfile (v : bool) (o : TiffSaveOptions) :=
  {| embedColorProfile := Some v; imageCompression := imageCompression o |}.

Definition set_imageCompression (v : TIFFEncoding) (o : TiffSaveOptions) :=
  {| embedColorProfile := embedColorProfile o; imageCompression := Some v |}.

(** A [File] object refers to a path; [File(x)] of a file object is that
    object again. *)
Inductive FileRef := File (path : jsstring).

Definition file_path (f : FileRef) : jsstring :=
  match f with File p => p end.

Definition File_of (f : FileRef) : FileRef := f.

(** The host: a world [W], document handles [D], and the calls the scripts
    make.  A call returns its result (or the exception it throws) and the
    world after it.  [getFiles] is [null] ([None]) for a folder that does not
    exist. *)
Record Host (W D : Type) := {
  getFiles : jsstring -> W -> option (list FileRef);
  open : FileRef -> CameraRAWOpenOptions -> W -> Result D * W;
  name : D -> W -> jsstring;
  convertProfile :
    D -> jsstring -> Intent -> bool -> bool -> W -> Result unit * W;
  saveAs : D -> FileRef -> TiffSaveOptions -> bool -> W -> Result unit * W;
  close : D -> SaveOptions -> W -> Result unit * W
}.
Arguments getFiles {W D}.
Arguments open {W D}.
Arguments name {W D}.
Arguments convertProfile {W D}.
Arguments saveAs {W D}.
Arguments close {W D}.

(** The state-changing host calls with their outcomes, as they appear in a
    run's trace. *)
Inductive Event (D : Type) :=
| EvOpen (f : FileRef) (o : CameraRAWOpenOptions) (r : Result D)
| EvConvertProfile (d : D) (profile : jsstring) (i : Intent)
    (blackPointCompensation dither : bool) (r : Result unit)
| EvSaveAs (d : D) (f : FileRef) (o : TiffSaveOptions) (asCopy : bool)
    (r : Result unit)
| EvClose (d : D) (s : SaveOptions) (r : Result unit).
Arguments EvOpen {D}.
Arguments EvConvertProfile {D}.
Arguments EvSaveAs {D}.
Arguments EvClose {D}.

(** ** Script computations: world passing, exceptions, trace *)

Definition M (W D A : Type) : Type := W -> Result A * W * list (Event D).

Definition ret {W D A} (a : A) : M W D A := fun w => (Ok a, w, []).

Definition throw {W D A} (e : Error) : M W D A := fun w => (Throw e, w, []).

Definition bind {W D A B} (m : M W D A) (k : A -> M W D B) : M W D B :=
  fun w =>
    match m w with
    | (Ok a, w1, t1) =>
        match k a w1 with
        | (r, w2, t2) => (r, w2, t1 ++ t2)
        end
    | (Throw e, w1, t1) => (Throw e, w1, t1)
    end.

Definition lift {W D A} (r : Result A) : M W D A := fun w => (r, w, []).

Declare Scope script_scope.
Delimit Scope script_scope with script.
Notation "'var' x ':=' m 'in' k" := (bind m (fun x => k))
  (at level 10, x name, m at level 100, k at level 200) : script_scope.
Notation "m '>>' k" := (bind m (fun _ => k))
  (at level 100, k at level 200, right associativity) : script_scope.

(** Outcome, final world and trace of a run. *)
Definition outcome {A W D} (x : Result A * W * list (Event D)) : Result A :=
  x.1.1.
Definition world {A W D} (x : Result A * W * list (Event D)) : W := x.1.2.
Definition trace {A W D} (x : Result A * W * list (Event D))
  : list (Event D) := x.2.

Section Scripts.
Context {W D : Type} (host : Host W D).

Local Open Scope script_scope.

Definition call_open (f : FileRef) (o : CameraRAWOpenOptions) : M W D D :=
  fun w => let '(r, w') := open host f o w in (r, w', [EvOpen f o r]).

Definition get_name (d : D) : M W D jsstring :=
  fun w => (Ok (name host d w), w, []).

Definition call_convertProfile (d : D) (profile : jsstring) (i : Intent)
    (bpc dither : bool) : M W D unit :=
  fun w =>
    let '(r, w') := convertProfile host d profile i bpc dither w in
    (r, w', [EvConvertProfile d profile i bpc dither r]).

Definition call_saveAs (d : D) (f : FileRef) (o : TiffSaveOptions)
    (asCopy : bool) : M W D unit :=
  fun w =>
    let '(r, w') := saveAs host d f o asCopy w in
    (r, w', [EvSaveAs d f o asCopy r]).

Definition call_close (d : D) (s : SaveOptions) : M W D unit :=
  fun w => let '(r, w') := close host d s w in (r, w', [EvClose d s r]).

(** [Folder(dir).getFiles()] followed by the first use of the result:
    reading [.length] of [null] throws. *)
Definition call_getFiles (dir : jsstring) : M W D (list FileRef) :=
  fun w =>
    match getFiles host dir w with
    | Some l => (Ok l, w, [])
    | None => (Throw TypeError, w, [])
    end.

(** *** convert_img.js *)

Definition convert_img (inFile outFile : jsstring) : M W D unit :=
  let openOptions := new_CameraRAWOpenOptions in
  let openOptions := set_colorSpace SRGB openOptions in
  let openOptions := set_bitsPerChannel SIXTEEN openOptions in
  let tiffSaveOptions := new_TiffSaveOptions in
  let tiffSaveOptions := set_embedColorProfile true tiffSaveOptions in
  let tiffSaveOptions := set_imageCompression TIFFLZW tiffSaveOptions in
  let inFileStr := inFile in
  let infileRef := File inFileStr in
  let outFileStr := outFile in
  let outfileRef := File outFileStr in
  var doc := call_open infileRef openOptions in
  call_convertProfile doc (js "sRGB IEC61966-2.1") RELATIVECOLORIMETRIC
    true true >>
  call_saveAs doc outfileRef tiffSaveOptions true >>
  call_close doc DONOTSAVECHANGES.

(** *** convert_imgs.js *)

(** [docName.split('/').pop().split('.')[0]]; calling [split] on
    [undefined] throws. *)
Definition baseName_of (docName : jsstring) : Result jsstring :=
  match JS.pop (JS.split JS.slash docName) with
  | None => Throw TypeError
  | Some seg => Ok (JS.to_string (JS.index (JS.split JS.dot seg) 0))
  end.

(** [tiffSubFolder + '/' + baseName + '.tif'] *)
Definition outFile_path (tiffSubFolder baseName : jsstring) : jsstring :=
  ((tiffSubFolder ++ js "/") ++ baseName) ++ js ".tif".

(** The output file of a document whose [name] is [rawName]: lines 24 to
    28, [decodeURI], the base name, the path. *)
Definition derive_outFile (tiffSubFolder rawName : jsstring)
  : Result FileRef :=
  match JS.decodeURI rawName with
  | Throw e => Throw e
  | Ok docName =>
      match baseName_of docName with
      | Throw e => Throw e
      | Ok baseName => Ok (File (outFile_path tiffSubFolder baseName))
      end
  end.

(** The body of the loop, for the entry [fileList[i]]. *)
Definition loop_body (openOptions : CameraRAWOpenOptions)
    (tiffSaveOptions : TiffSaveOptions) (tiffSubFolder : jsstring)
    (entry : FileRef) : M W D unit :=
  let fileRef := File_of entry in
  var doc := call_open fileRef openOptions in
  var rawName := get_name doc in
  var outFile := lift (derive_outFile tiffSubFolder rawName) in
  call_convertProfile doc (js "sRGB IEC61966-2.1") RELATIVECOLORIMETRIC
    true true >>
  call_saveAs doc outFile tiffSaveOptions true >>
  call_close doc DONOTSAVECHANGES.

(** [for (; i < fileList.length; i++) body]: one unit of fuel per test of
    the loop condition. *)
Fixpoint for_loop (fuel : nat) (i : nat) (fileList : list FileRef)
    (body : FileRef -> M W D unit) : M W D unit :=
  match fuel with
  | O => throw OutOfFuel
  | S fuel' =>
      if (i <? length fileList)%nat then
        match JS.index fileList i with
        | Some entry => body entry >> for_loop fuel' (S i) fileList body
        | None => throw TypeError
        end
      else ret tt
  end.

Definition convert_imgs (sourceDir : jsstring) : M W D unit :=
  let openOptions := new_CameraRAWOpenOptions in
  let openOptions := set_colorSpace SRGB openOptions in
  let openOptions := set_bitsPerChannel SIXTEEN openOptions in
  let tiffSaveOptions := new_TiffSaveOptions in
  let tiffSaveOptions := set_embedColorProfile true tiffSaveOptions in
  let tiffSaveOptions := set_imageCompression TIFFLZW tiffSaveOptions in
  let srcFolderStr := sourceDir in
  let tiffSubFolder := srcFolderStr ++ js "/TIFF/" in
  var fileList := call_getFiles srcFolderStr in
  for_loop (S (length fileList)) 1 fileList
    (loop_body openOptions tiffSaveOptions tiffSubFolder).

End Scripts.

(** The two command lines: [convert_img(arguments[0], arguments[1])] and
    [convert_imgs(arguments[0])]. *)
Inductive Invocation :=
| Run_convert_img (inFile outFile : jsstring)
| Run_convert_imgs (sourceDir : jsstring).

Definition run {W D} (host : Host W D) (c : Invocation) : M W D unit :=
  match c with
  | Run_convert_img inFile outFile => convert_img host inFile outFile
  | Run_convert_imgs sourceDir => convert_imgs host sourceDir
  end.

(** The loop as a traversal of the entries it visits. *)
Fixpoint foreach {W D} (body : FileRef -> M W D unit) (l : list FileRef)
  : M W D unit :=
  match l with
  | [] => ret tt
  | entry :: l' => bind (body entry) (fun _ => foreach body l')
  end.

(** ** Reading a trace *)

Definition fixed_openOptions : CameraRAWOpenOptions :=
  {| colorSpace := Some SRGB; bitsPerChannel := Some SIXTEEN |}.

Definition fixed_tiffSaveOptions : TiffSaveOptions :=
  {| embedColorProfile := Some true; imageCompression := Some TIFFLZW |}.

(** The loop body of [convert_imgs] with the options it is run with. *)
Definition batch_body {W D} (host : Host W D) (sourceDir : jsstring)
  : FileRef -> M W D unit :=
  loop_body host fixed_openOptions fixed_tiffSaveOptions
    (sourceDir ++ js "/TIFF/").

Definition sRGB_profile : jsstring := js "sRGB IEC61966-2.1".


Definition opened_file {D} (e : Event D) : option FileRef :=
  match e with EvOpen f _ _ => Some f | _ => None end.

Definition opened_doc {D} (e : Event D) : option D :=
  match e with EvOpen _ _ (Ok d) => Some d | _ => None end.

Definition closed_doc {D} (e : Event D) : option D :=
  match e with EvClose d _ (Ok _) => Some d | _ => None end.


Definition saved_file {D} (e : Event D) : option FileRef :=
  match e with EvSaveAs _ f _ _ (Ok _) => Some f | _ => None end.

Definition opened_files {D} (t : list (Event D)) : list FileRef :=
  omap opened_file t.
Definition saved_files {D} (t : list (Event D)) : list FileRef :=
  omap saved_file t.
Definition opened_docs {D} (t : list (Event D)) : list D := omap opened_doc t.
Definition closed_docs {D} (t : list (Event D)) : list D := omap closed_doc t.

(** The calls of one conversion job on file [f], by how far it gets: the
    open fails; the output name cannot be derived; the conversion fails; the
    save fails; the job reaches its close. *)
Inductive job_trace {D} (f : FileRef) : Result unit -> list (Event D) -> Prop :=
| job_open_fails e :
    job_trace f (Throw e) [EvOpen f fixed_openOptions (Throw e)]
| job_name_fails d e :
    job_trace f (Throw e) [EvOpen f fixed_openOptions (Ok d)]
| job_convert_fails d e :
    job_trace f (Throw e)
      [EvOpen f fixed_openOptions (Ok d);
       EvConvertProfile d sRGB_profile RELATIVECOLORIMETRIC true true
         (Throw e)]
| job_save_fails d out e :
    job_trace f (Throw e)
      [EvOpen f fixed_openOptions (Ok d);
       EvConvertProfile d sRGB_profile RELATIVECOLORIMETRIC true true (Ok tt);
       EvSaveAs d out fixed_tiffSaveOptions true (Throw e)]
| job_reaches_close d out r :
    job_trace f r
      [EvOpen f fixed_openOptions (Ok d);
       EvConvertProfile d sRGB_profile RELATIVECOLORIMETRIC true true (Ok tt);
       EvSaveAs d out fixed_tiffSaveOptions true (Ok tt);
       EvClose d DONOTSAVECHANGES r].

(** The calls of a batch over the entries [l]: jobs that succeed, up to the
    end of the list or the first job that throws. *)
Inductive batch_trace {D}
  : list FileRef -> Result unit -> list (Event D) -> Prop :=
| batch_done : batch_trace [] (Ok tt) []
| batch_next f l t r t' :
    job_trace f (Ok tt) t -> batch_trace l r t' ->
    batch_trace (f :: l) r (t ++ t')
| batch_stops f l e t :
    job_trace f (Throw e) t -> batch_trace (f :: l) (Throw e) t.

(** ** The filename contract in the specification's words *)
Module Spec.

(** The part of [s] before the first [c]; all of [s] if there is none. *)
Fixpoint up_to_first (c : N) (s : jsstring) : jsstring :=
  match s with
  | [] => []
  | x :: s' => if x =? c then [] else x :: up_to_first c s'
  end.

(** The part of [s] after the last [c]; all of [s] if there is none. *)
Fixpoint after_last (c : N) (s : jsstring) : jsstring :=
  match s with
  | [] => []
  | x :: s' => if JS.in_set c s then after_last c s' else s
  end.

Definition final_path_segment (p : jsstring) : jsstring :=
  after_last JS.slash p.

Definition truncate_at_first_dot (seg : jsstring) : jsstring :=
  up_to_first JS.dot seg.

Definition destination_filename (sourcePath : jsstring) : jsstring :=
  truncate_at_first_dot (final_path_segment sourcePath) ++ js ".tif".

(** A document name that stands for [s]: each ['%'] written ["%25"]. *)
Definition escape_percent (s : jsstring) : jsstring :=
  flat_map (fun c => if c =? JS.percent then js "%25" else [c]) s.

End Spec.

(** ** A reference host

    The host application is closed, and nothing in this module is
    translated from the repository: it is an assumed model of the behaviour
    the scripts rely on, as far as their effects on files go.  It serves for
    examples and counterexamples; a statement made of [ref_host] holds of
    this model only and says so.  A world is a file system
    (folders with their ordered listings, files with their contents) and the
    table of open documents.  Pictures are symbolic: a picture is the RAW
    data it was developed from and the conversions applied since.  Saving
    writes the named file, replacing an existing one, and needs the folder
    to exist; closing without saving writes nothing. *)
Module RefHost.

(** A path as its non-empty segments: ["d/TIFF//x.tif"] and
    ["d/TIFF/x.tif"] name the same file. *)
Abbreviation path := (list jsstring).

Definition segments (p : jsstring) : path :=
  filter (fun s : jsstring => s <> []) (JS.split JS.slash p).

Definition parent (p : path) : path := removelast p.

Definition profile_name (cs : ColorSpaceType) : jsstring :=
  match cs with
  | ADOBERGB => js "Adobe RGB (1998)"
  | COLORMATCHRGB => js "ColorMatch RGB"
  | PROPHOTORGB => js "ProPhoto RGB"
  | SRGB => js "sRGB IEC61966-2.1"
  end.

Inductive Picture :=
| Develop (sensor : N) (cs : ColorSpaceType)
| Convert (p : Picture) (profile : jsstring) (i : Intent)
    (blackPointCompensation dither : bool).

Record Tiff := {
  tiff_picture : Picture;
  tiff_bits : BitsPerChannelType;
  tiff_profile : option jsstring;
  tiff_compression : TIFFEncoding
}.

Inductive FileData :=
| RawFile (sensor : N)
| TiffFile (t : Tiff)
| OtherFile.

Record Document := {
  doc_source : path;
  doc_name : jsstring;
  doc_picture : Picture;
  doc_bits : BitsPerChannelType;
  doc_profile : option jsstring
}.

Record World := {
  folders : gmap path (list jsstring);
  files : gmap path FileData;
  docs : gmap nat Document;
  next_doc : nat
}.

Definition with_docs (ds : gmap nat Document) (n : nat) (w : World) :=
  {| folders := folders w; files := files w; docs := ds; next_doc := n |}.

Definition add_entry (leaf : jsstring) (listing : list jsstring)
  : list jsstring :=
  if bool_decide (leaf ∈ listing) then listing else listing ++ [leaf].

(** Writing a file: the folder must exist and the name must not be a
    folder; the name joins the folder's listing if it is new. *)
Definition write_file (p : path) (x : FileData) (w : World)
  : option World :=
  match last p, folders w !! parent p, folders w !! p with
  | Some leaf, Some listing, None =>
      Some {| folders := <[parent p := add_entry leaf listing]> (folders w);
              files := <[p := x]> (files w);
              docs := docs w;
              next_doc := next_doc w |}
  | _, _, _ => None
  end.

Definition ref_getFiles (dir : jsstring) (w : World)
  : option (list FileRef) :=
  map (fun n => File (dir ++ js "/" ++ n)) <$> folders w !! segments dir.

Definition new_document (d : Document) (w : World) : Result nat * World :=
  (Ok (next_doc w),
   with_docs (<[next_doc w := d]> (docs w)) (S (next_doc w)) w).

(** The document the host makes of a file: RAW data is developed with the
    open options, a TIFF is read as it is, anything else is refused. *)
Definition open_document (p : path) (data : FileData)
    (o : CameraRAWOpenOptions) : Result Document :=
  match data with
  | OtherFile => Throw (HostThrow DecodeError)
  | RawFile sensor =>
      let cs := default ADOBERGB (colorSpace o) in
      Ok {| doc_source := p;
            doc_name := default [] (last p);
            doc_picture := Develop sensor cs;
            doc_bits := default EIGHT (bitsPerChannel o);
            doc_profile := Some (profile_name cs) |}
  | TiffFile t =>
      Ok {| doc_source := p;
            doc_name := default [] (last p);
            doc_picture := tiff_picture t;
            doc_bits := tiff_bits t;
            doc_profile := tiff_profile t |}
  end.

Definition ref_open (f : FileRef) (o : CameraRAWOpenOptions) (w : World)
  : Result nat * World :=
  let p := segments (file_path f) in
  match files w !! p with
  | None => (Throw (HostThrow InputNotFound), w)
  | Some data =>
      match open_document p data o with
      | Throw e => (Throw e, w)
      | Ok doc => new_document doc w
      end
  end.

Definition ref_name (d : nat) (w : World) : jsstring :=
  match docs w !! d with
  | Some doc => doc_name doc
  | None => []
  end.

(** Converting a document to the profile it already has changes nothing. *)
Definition convert_document (doc : Document) (profile : jsstring)
    (i : Intent) (bpc dither : bool) : Document :=
  if bool_decide (doc_profile doc = Some profile) then doc
  else
    {| doc_source := doc_source doc;
       doc_name := doc_name doc;
       doc_picture := Convert (doc_picture doc) profile i bpc dither;
       doc_bits := doc_bits doc;
       doc_profile := Some profile |}.

(** A document without a profile cannot be converted. *)
Definition ref_convertProfile (d : nat) (profile : jsstring) (i : Intent)
    (bpc dither : bool) (w : World) : Result unit * World :=
  match docs w !! d with
  | None => (Throw (HostThrow NoSuchDocument), w)
  | Some doc =>
      match doc_profile doc with
      | None => (Throw (HostThrow ColorConversionError), w)
      | Some _ =>
          (Ok tt,
           with_docs
             (<[d := convert_document doc profile i bpc dither]> (docs w))
             (next_doc w) w)
      end
  end.

Definition encode_tiff (doc : Document) (o : TiffSaveOptions) : Tiff :=
  {| tiff_picture := doc_picture doc;
     tiff_bits := doc_bits doc;
     tiff_profile :=
       if default true (embedColorProfile o) then doc_profile doc else None;
     tiff_compression := default NONE (imageCompression o) |}.

Definition ref_saveAs (d : nat) (f : FileRef) (o : TiffSaveOptions)
    (asCopy : bool) (w : World) : Result unit * World :=
  match docs w !! d with
  | None => (Throw (HostThrow NoSuchDocument), w)
  | Some doc =>
      let p := segments (file_path f) in
      match write_file p (TiffFile (encode_tiff doc o)) w with
      | None => (Throw (HostThrow WriteError), w)
      | Some w' =>
          if asCopy then (Ok tt, w')
          else
            (Ok tt,
             with_docs
               (<[d := {| doc_source := p;
                          doc_name := default [] (last p);
                          doc_picture := doc_picture doc;
                          doc_bits := doc_bits doc;
                          doc_profile := doc_profile doc |}]> (docs w'))
               (next_doc w') w')
      end
  end.

Definition ref_close (d : nat) (s : SaveOptions) (w : World)
  : Result unit * World :=
  match docs w !! d with
  | None => (Throw (HostThrow NoSuchDocument), w)
  | Some doc =>
      match s with
      | DONOTSAVECHANGES =>
          (Ok tt, with_docs (delete d (docs w)) (next_doc w) w)
      | PROMPTTOSAVECHANGES | SAVECHANGES =>
          match write_file (doc_source doc)
                  (TiffFile (encode_tiff doc new_TiffSaveOptions)) w with
          | None => (Throw (HostThrow WriteError), w)
          | Some w' =>
              (Ok tt, with_docs (delete d (docs w')) (next_doc w') w')
          end
      end
  end.

(** What one job of the scripts does to the files, when it succeeds: the
    TIFF written, its name and the listing of its folder. *)
Definition job_plan (w : World) (p q : path)
  : option (Tiff * jsstring * list jsstring) :=
  match files w !! p with
  | None => None
  | Some data =>
      match open_document p data fixed_openOptions with
      | Throw _ => None
      | Ok doc =>
          match doc_profile doc, last q, folders w !! parent q,
                folders w !! q with
          | Some _, Some leaf, Some listing, None =>
              Some (encode_tiff
                      (convert_document doc sRGB_profile
                         RELATIVECOLORIMETRIC true true)
                      fixed_tiffSaveOptions,
                    leaf, listing)
          | _, _, _, _ => None
          end
      end
  end.

Definition ref_host : Host World nat :=
  {| getFiles := ref_getFiles;
     open := ref_open;
     name := ref_name;
     convertProfile := ref_convertProfile;
     saveAs := ref_saveAs;
     close := ref_close |}.

End RefHost.

(** In a batch over the entries [l] that starts in world [w], [f] is the
    output file of the job that opened document [d]: the jobs of the entries
    before one entry ended normally, the entry was opened as [d] in the
    world they left, and [f] is derived from the name the host gives [d]
    right after that open. *)
Definition derived_in_batch {W D} (host : Host W D) (sourceDir : jsstring)
    (l : list FileRef) (w : W) (d : D) (f : FileRef) : Prop :=
  exists done entry rest w1,
    l = done ++ entry :: rest /\
    outcome (foreach (batch_body host sourceDir) done w) = Ok tt /\
    open host entry fixed_openOptions
      (world (foreach (batch_body host sourceDir) done w)) = (Ok d, w1) /\
    derive_outFile (sourceDir ++ js "/TIFF/") (name host d w1) = Ok f.

(** The output file of the job that opened document [d] in the run of [c]
    from world [w].  For [convert_img] it is [outFile], and [d] is what
    opening [inFile] in [w] gave.  For [convert_imgs] it is derived in the
    batch over the listing without its first entry. *)
Definition is_save_target {W D} (host : Host W D) (c : Invocation) (w : W)
    (d : D) (f : FileRef) : Prop :=
  match c with
  | Run_convert_img inFile outFile =>
      f = File outFile /\
      exists w1, open host (File inFile) fixed_openOptions w = (Ok d, w1)
  | Run_convert_imgs sourceDir =>
      exists fileList,
        getFiles host sourceDir w = Some fileList /\
        derived_in_batch host sourceDir (drop 1 fileList) w d f
  end.

(** A save is a save of a copy to the output file of its document's job. *)
Definition saves_to_target {W D} (host : Host W D) (c : Invocation) (w : W)
    (e : Event D) : Prop :=
  match e with
  | EvSaveAs d f _ asCopy _ => is_save_target host c w d f /\ asCopy = true
  | _ => True
  end.

(** The same for the jobs of a batch over the entries [l] from world [w]. *)
Definition saves_derived {W D} (host : Host W D) (sourceDir : jsstring)
    (l : list FileRef) (w : W) (e : Event D) : Prop :=
  match e with
  | EvSaveAs d f _ asCopy _ =>
      derived_in_batch host sourceDir l w d f /\ asCopy = true
  | _ => True
  end.

(** The call an event records, made in any world, leaves [P] as it is. *)
Definition call_keeps {W D} (host : Host W D) (P : W -> Prop) (e : Event D)
  : Prop :=
  match e with
  | EvOpen f o _ => forall w, P w -> P (open host f o w).2
  | EvConvertProfile d p i bpc dither _ =>
      forall w, P w -> P (convertProfile host d p i bpc dither w).2
  | EvSaveAs d f o asCopy _ => forall w, P w -> P (saveAs host d f o asCopy w).2
  | EvClose d s _ => forall w, P w -> P (close host d s w).2
  end.





(** Two worlds with the same files and folders. *)
Definition same_fs (w w' : RefHost.World) : Prop :=
  RefHost.files w' = RefHost.files w /\ RefHost.folders w' = RefHost.folders w.

(** Did the call throw? *)
Definition event_threw {D} (e : Event D) : bool :=
  match e with
  | EvOpen _ _ (Throw _) => true
  | EvConvertProfile _ _ _ _ _ (Throw _) => true
  | EvSaveAs _ _ _ _ (Throw _) => true
  | EvClose _ _ (Throw _) => true
  | _ => false
  end.

Definition event_returned {D} (e : Event D) : bool := negb (event_threw e).

(** ** Worlds of the reference host used as concrete inputs *)
Module Examples.
Import RefHost.

(** A shoot of two RAW files with its [TIFF] folder, listed by name. *)
Definition shoot : World :=
  {| folders :=
       {[ [js "shoot"] := [js "IMG_1.CR2"; js "IMG_2.CR2"; js "TIFF"];
          [js "shoot"; js "TIFF"] := [] ]};
     files :=
       {[ [js "shoot"; js "IMG_1.CR2"] := RawFile 1;
          [js "shoot"; js "IMG_2.CR2"] := RawFile 2 ]};
     docs := ∅;
     next_doc := 0 |}.

(** The same shoot before its [TIFF] folder has been made. *)
Definition shoot_without_TIFF : World :=
  {| folders := {[ [js "shoot"] := [js "IMG_1.CR2"; js "IMG_2.CR2"] ]};
     files := files shoot;
     docs := ∅;
     next_doc := 0 |}.

(** Two exposures of one frame, listed after the [TIFF] folder. *)
Definition brackets : World :=
  {| folders :=
       {[ [js "shoot"] := [js "TIFF"; js "a.b.CR2"; js "a.c.CR2"];
          [js "shoot"; js "TIFF"] := [] ]};
     files :=
       {[ [js "shoot"; js "a.b.CR2"] := RawFile 1;
          [js "shoot"; js "a.c.CR2"] := RawFile 2 ]};
     docs := ∅;
     next_doc := 0 |}.



(** The TIFF the scripts make of RAW data [sensor]: developed in sRGB, the
    picture already has the profile it is converted to. *)
Definition converted (sensor : N) : Tiff :=
  {| tiff_picture := Develop sensor SRGB;
     tiff_bits := SIXTEEN;
     tiff_profile := Some sRGB_profile;
     tiff_compression := TIFFLZW |}.

(** A shoot with a text file between the [TIFF] folder and the picture. *)
Definition mixed : World :=
  {| folders :=
       {[ [js "shoot"] :=
            [js "TIFF"; js "IMG_1.CR2"; js "notes.txt"; js "IMG_2.CR2"];
          [js "shoot"; js "TIFF"] := [] ]};
     files :=
       {[ [js "shoot"; js "IMG_1.CR2"] := RawFile 1;
          [js "shoot"; js "notes.txt"] := OtherFile;
          [js "shoot"; js "IMG_2.CR2"] := RawFile 2 ]};
     docs := ∅;
     next_doc := 0 |}.

(** A picture whose name holds a ['%'] that starts no escape. *)
Definition stray_percent : World :=
  {| folders :=
       {[ [js "shoot"] := [js "TIFF"; js "100%.CR2"; js "IMG_2.CR2"];
          [js "shoot"; js "TIFF"] := [] ]};
     files :=
       {[ [js "shoot"; js "100%.CR2"] := RawFile 1;
          [js "shoot"; js "IMG_2.CR2"] := RawFile 2 ]};
     docs := ∅;
     next_doc := 0 |}.

(** A shoot of one picture, listed after its [TIFF] folder. *)
Definition one_picture : World :=
  {| folders :=
       {[ [js "shoot"] := [js "TIFF"; js "IMG_1.CR2"];
          [js "shoot"; js "TIFF"] := [] ]};
     files := {[ [js "shoot"; js "IMG_1.CR2"] := RawFile 1 ]};
     docs := ∅;
     next_doc := 0 |}.



(** A picture whose name holds the escape of a letter. *)
Definition escaped_name : World :=
  {| folders :=
       {[ [js "shoot"] := [js "TIFF"; js "a%41.CR2"];
          [js "shoot"; js "TIFF"] := [] ]};
     files := {[ [js "shoot"; js "a%41.CR2"] := RawFile 1 ]};
     docs := ∅;
     next_doc := 0 |}.

(** A folder that holds one picture and nothing else. *)
Definition single : World :=
  {| folders := {[ [js "shoot"] := [js "IMG_1.CR2"] ]};
     files := {[ [js "shoot"; js "IMG_1.CR2"] := RawFile 1 ]};
     docs := ∅;
     next_doc := 0 |}.

End Examples.

(** * Properties *)

(** ** JavaScript string operations *)

Lemma in_set_cons c x s :
  JS.in_set c (x :: s) = (c =? x) || JS.in_set c s.
Proof. reflexivity. Qed.

Lemma in_set_elem_of c s : JS.in_set c s = true <-> c ∈ s.
Proof.
  induction s as [|x s IH]; simpl.
  - split; [discriminate | intros H; inversion H].
  - rewrite orb_true_iff, IH, N.eqb_eq, elem_of_cons. reflexivity.
Qed.

Lemma in_set_app c s t :
  JS.in_set c (s ++ t) = JS.in_set c s || JS.in_set c t.
Proof. apply existsb_app. Qed.

Lemma split_not_nil sep s : JS.split sep s <> [].
Proof.
  destruct s as [|c s]; simpl; [discriminate|].
  destruct (c =? sep); [discriminate|].
  destruct (JS.split sep s); discriminate.
Qed.

(** Without a separator there is one piece, the string itself. *)
Lemma split_absent sep s : JS.in_set sep s = false -> JS.split sep s = [s].
Proof.
  induction s as [|c s IH]; [reflexivity|].
  rewrite in_set_cons, orb_false_iff, N.eqb_sym. intros [Hc Hs].
  simpl. rewrite Hc, (IH Hs). reflexivity.
Qed.

(** With a separator there are at least two pieces. *)
Lemma split_present sep s :
  JS.in_set sep s = true -> exists p q ps, JS.split sep s = p :: q :: ps.
Proof.
  induction s as [|c s IH]; [discriminate|].
  rewrite in_set_cons, N.eqb_sym. simpl. destruct (c =? sep); simpl.
  - intros _. destruct (JS.split sep s) as [|q ps] eqn:E.
    + destruct (split_not_nil _ _ E).
    + eauto.
  - intros H. destruct (IH H) as (p & q & ps & ->). eauto.
Qed.

(** [s.split(c)[0]] is [s] up to its first [c]. *)
Lemma split_head sep s :
  JS.index (JS.split sep s) 0 = Some (Spec.up_to_first sep s).
Proof.
  unfold JS.index. induction s as [|c s IH]; [reflexivity|].
  simpl. destruct (c =? sep); [reflexivity|].
  destruct (JS.split sep s) as [|p ps]; [discriminate|].
  simpl in *. congruence.
Qed.

(** [s.split(c).pop()] is [s] after its last [c]. *)
Lemma split_pop sep s :
  JS.pop (JS.split sep s) = Some (Spec.after_last sep s).
Proof.
  unfold JS.pop. induction s as [|c s IH]; [reflexivity|].
  cbn [JS.split Spec.after_last]. rewrite in_set_cons, (N.eqb_sym sep c).
  destruct (c =? sep) eqn:Hc; cbn [orb].
  - destruct (JS.split sep s) as [|q ps] eqn:E.
    + destruct (split_not_nil _ _ E).
    + exact IH.
  - destruct (JS.in_set sep s) eqn:Hs.
    + destruct (split_present _ _ Hs) as (p & q & ps & E).
      rewrite E in *. exact IH.
    + rewrite (split_absent _ _ Hs). reflexivity.
Qed.

(** The two readings of the specification's words are what they say. *)
Lemma up_to_first_spec c s :
  JS.in_set c (Spec.up_to_first c s) = false /\
  (s = Spec.up_to_first c s \/
   exists rest, s = Spec.up_to_first c s ++ c :: rest).
Proof.
  induction s as [|x s [IH1 IH2]]; [split; [reflexivity | left; reflexivity]|].
  simpl. destruct (x =? c) eqn:Hx.
  - apply N.eqb_eq in Hx as ->. split; [reflexivity | right; eauto].
  - split.
    + rewrite in_set_cons, N.eqb_sym, Hx. exact IH1.
    + destruct IH2 as [IH2 | [rest IH2]].
      * left. congruence.
      * right. exists rest. simpl. congruence.
Qed.

Lemma after_last_spec c s :
  JS.in_set c (Spec.after_last c s) = false /\
  (s = Spec.after_last c s \/
   exists front, s = front ++ c :: Spec.after_last c s).
Proof.
  induction s as [|x s [IH1 IH2]]; [split; [reflexivity | left; reflexivity]|].
  cbn [Spec.after_last]. destruct (JS.in_set c (x :: s)) eqn:Hin.
  - split; [exact IH1|]. right.
    destruct IH2 as [IH2 | [front IH2]].
    + rewrite <- IH2 in *. rewrite in_set_cons, IH1, orb_false_r in Hin.
      apply N.eqb_eq in Hin as ->. exists []. reflexivity.
    + exists (x :: front). simpl. congruence.
  - split; [exact Hin | left; reflexivity].
Qed.

(** A name without ['%'] decodes to itself. *)
Lemma Decode_no_percent rs s :
  JS.in_set JS.percent s = false -> JS.Decode rs JS.Idle s = Some s.
Proof.
  induction s as [|c s IH]; [reflexivity|].
  rewrite in_set_cons, orb_false_iff, N.eqb_sym. intros [Hc Hs].
  simpl. rewrite Hc, (IH Hs). reflexivity.
Qed.

Lemma decodeURI_no_percent s :
  JS.in_set JS.percent s = false -> JS.decodeURI s = Ok s.
Proof. intros H. unfold JS.decodeURI. rewrite Decode_no_percent; auto. Qed.

(** Every string is the decoding of some document name. *)
Lemma decodeURI_escape_percent s :
  JS.decodeURI (Spec.escape_percent s) = Ok s.
Proof.
  unfold JS.decodeURI.
  assert (H : JS.Decode JS.reservedURISet JS.Idle (Spec.escape_percent s)
              = Some s).
  { induction s as [|c s IH]; [reflexivity|].
    cbn [Spec.escape_percent flat_map]. fold (Spec.escape_percent s).
    destruct (c =? JS.percent) eqn:Hc.
    - apply N.eqb_eq in Hc as ->.
      change (js "%25" ++ Spec.escape_percent s)
        with (JS.percent :: 50 :: 53 :: Spec.escape_percent s).
      cbn. cbn in IH. rewrite IH. reflexivity.
    - cbn [app JS.Decode]. rewrite Hc, IH. reflexivity. }
  rewrite H. reflexivity.
Qed.

Example decodeURI_space :
  JS.decodeURI (js "my%20photo.CR2") = Ok (js "my photo.CR2").
Proof. vm_compute. reflexivity. Qed.

Example decodeURI_three_octets : JS.decodeURI (js "%E2%82%AC") = Ok [8364].
Proof. vm_compute. reflexivity. Qed.

Example decodeURI_four_octets :
  JS.decodeURI (js "%F0%9F%93%B7") = Ok [55357; 56567].
Proof. vm_compute. reflexivity. Qed.

Example decodeURI_keeps_reserved :
  JS.decodeURI (js "a%2Fb%2Ec") = Ok (js "a%2Fb.c").
Proof. vm_compute. reflexivity. Qed.

Example decodeURI_overlong : JS.decodeURI (js "%C0%AF") = Throw URIError.
Proof. vm_compute. reflexivity. Qed.

Example decodeURI_lone_percent :
  JS.decodeURI (js "100%.CR2") = Throw URIError.
Proof. vm_compute. reflexivity. Qed.

Example split_examples :
  JS.split JS.slash (js "shoot/IMG_1.CR2") = [js "shoot"; js "IMG_1.CR2"] /\
  JS.split JS.dot (js "a.b.c.CR2") = [js "a"; js "b"; js "c"; js "CR2"] /\
  JS.split JS.dot (js ".DS_Store") = [[]; js "DS_Store"] /\
  JS.split JS.dot [] = [[]].
Proof. repeat split. Qed.

(** ** The derived output file *)

Lemma baseName_of_spec docName :
  baseName_of docName =
  Ok (Spec.truncate_at_first_dot (Spec.final_path_segment docName)).
Proof.
  unfold baseName_of. rewrite split_pop, split_head. reflexivity.
Qed.

Lemma derive_outFile_decoded tiffSubFolder rawName docName :
  JS.decodeURI rawName = Ok docName ->
  derive_outFile tiffSubFolder rawName =
  Ok (File (tiffSubFolder ++ js "/" ++ Spec.destination_filename docName)).
Proof.
  intros H. unfold derive_outFile. rewrite H, baseName_of_spec.
  unfold outFile_path, Spec.destination_filename.
  rewrite <- !app_assoc. reflexivity.
Qed.

Lemma up_to_first_absent c s :
  JS.in_set c s = false -> Spec.up_to_first c s = s.
Proof.
  induction s as [|x s IH]; [reflexivity|].
  rewrite in_set_cons, orb_false_iff, N.eqb_sym. intros [Hx Hs].
  simpl. rewrite Hx, (IH Hs). reflexivity.
Qed.

Lemma after_last_absent c s :
  JS.in_set c s = false -> Spec.after_last c s = s.
Proof. destruct s as [|x s]; [reflexivity|]. simpl. intros ->. reflexivity. Qed.

Lemma after_last_app_sep c a b :
  JS.in_set c b = false -> Spec.after_last c (a ++ c :: b) = b.
Proof.
  intros Hb. induction a as [|x a IH].
  - cbn [app Spec.after_last]. rewrite in_set_cons, N.eqb_refl.
    cbn [orb]. apply after_last_absent. exact Hb.
  - cbn [app Spec.after_last].
    rewrite in_set_cons, in_set_app, in_set_cons, N.eqb_refl, orb_true_r,
      orb_true_r. exact IH.
Qed.

(** *** Decoding and the path separator *)

(** The separator is no hexadecimal digit. *)
Lemma hex_value_slash : JS.hex_value JS.slash = None.
Proof. reflexivity. Qed.

Lemma fmap_Some_inv {A B} (f : A -> B) (x : option A) (y : B) :
  f <$> x = Some y -> exists a, x = Some a /\ y = f a.
Proof. destruct x; [intros [= <-]; eauto | discriminate]. Qed.

(** A ['/'] of the name is outside every escape the decoder accepts: the
    decoding is the decoding of what stands before it, the ['/'], and the
    decoding of what follows. *)
Lemma Decode_slash rs n :
  forall front st tail d,
    (length front <= n)%nat ->
    JS.Decode rs st (front ++ JS.slash :: tail) = Some d ->
    exists d1 d2,
      d = d1 ++ JS.slash :: d2 /\ JS.Decode rs JS.Idle tail = Some d2.
Proof.
  induction n as [|n IH]; intros front st tail d Hlen Hd.
  - destruct front; [|cbn in Hlen; lia]. cbn [app] in Hd.
    destruct st; cbn in Hd; [|discriminate].
    apply fmap_Some_inv in Hd as (d2 & Hd2 & ->). exists [], d2. auto.
  - destruct front as [|c front].
    { apply (IH [] st tail d); [cbn; lia | exact Hd]. }
    cbn [app] in Hd. cbn [length] in Hlen.
    destruct st as [|m more V orig].
    + cbn [JS.Decode] in Hd. destruct (c =? JS.percent).
      * destruct front as [|h1 [|h2 front]]; cbn [app] in Hd.
        -- rewrite hex_value_slash in Hd. destruct tail; discriminate.
        -- rewrite hex_value_slash in Hd.
           destruct (JS.hex_value h1); discriminate.
        -- cbn [length] in Hlen.
           destruct (JS.hex_value h1) as [a|]; [|discriminate].
           destruct (JS.hex_value h2) as [b|]; [|discriminate].
           cbn zeta in Hd.
           destruct (16 * a + b <? 128).
           ++ apply fmap_Some_inv in Hd as (d' & Hd' & ->).
              apply IH in Hd' as (d1 & d2 & -> & Hd2); [|lia].
              eexists (_ ++ d1), d2. rewrite <- app_assoc. auto.
           ++ destruct (_ || _); [discriminate|].
              apply IH in Hd as (d1 & d2 & -> & Hd2); [|lia]. eauto.
      * apply fmap_Some_inv in Hd as (d' & Hd' & ->).
        apply IH in Hd' as (d1 & d2 & -> & Hd2); [|lia].
        exists (c :: d1), d2. auto.
    + cbn [JS.Decode] in Hd. destruct (c =? JS.percent); [|discriminate].
      destruct front as [|h1 [|h2 front]]; cbn [app] in Hd.
      * rewrite hex_value_slash in Hd. destruct tail; discriminate.
      * rewrite hex_value_slash in Hd.
        destruct (JS.hex_value h1); discriminate.
      * cbn [length] in Hlen.
        destruct (JS.hex_value h1) as [a|]; [|discriminate].
        destruct (JS.hex_value h2) as [b|]; [|discriminate].
        cbn zeta in Hd.
        destruct (N.land _ 192 =? 128); [|discriminate].
        destruct more as [|more].
        -- destruct (JS.valid_code_point _ _); [|discriminate].
           apply fmap_Some_inv in Hd as (d' & Hd' & ->).
           apply IH in Hd' as (d1 & d2 & -> & Hd2); [|lia].
           eexists (_ ++ d1), d2. rewrite <- app_assoc. auto.
        -- apply IH in Hd as (d1 & d2 & -> & Hd2); [|lia]. eauto.
Qed.

(** Decoding makes no ['/']: an escaped ['/'] is a reserved character and
    stays escaped. *)
Lemma valid_code_point_ge n V :
  JS.valid_code_point n V = true -> 128 <= V.
Proof.
  unfold JS.valid_code_point.
  destruct (n =? 2); [intros H; apply N.leb_le in H; exact H|].
  destruct (n =? 3).
  - rewrite andb_true_iff. intros [H _]. apply N.leb_le in H. lia.
  - rewrite andb_true_iff. intros [H _]. apply N.leb_le in H. lia.
Qed.

Lemma decoded_units_no_slash rs V orig :
  128 <= V -> JS.in_set JS.slash orig = false ->
  JS.in_set JS.slash (JS.decoded_units rs V orig) = false.
Proof.
  intros HV Horig. unfold JS.decoded_units.
  destruct (V <? 65536).
  - destruct (JS.in_set V rs); [exact Horig|].
    rewrite in_set_cons, orb_false_iff. split; [|reflexivity].
    apply N.eqb_neq. unfold JS.slash. lia.
  - cbn zeta. rewrite !in_set_cons, !orb_false_iff.
    repeat split; apply N.eqb_neq; unfold JS.slash; lia.
Qed.

Lemma Decode_no_slash rs n :
  JS.in_set JS.slash rs = true ->
  forall s st d,
    (length s <= n)%nat ->
    JS.in_set JS.slash s = false ->
    match st with
    | JS.Idle => True
    | JS.Pending _ _ _ orig => JS.in_set JS.slash orig = false
    end ->
    JS.Decode rs st s = Some d ->
    JS.in_set JS.slash d = false.
Proof.
  intros Hrs. induction n as [|n IH]; intros s st d Hlen Hs Hst Hd.
  - destruct s; [|cbn in Hlen; lia].
    destruct st; cbn in Hd; [injection Hd as <-; reflexivity | discriminate].
  - destruct s as [|c s].
    { apply (IH [] st d); auto. cbn; lia. }
    cbn [length] in Hlen. rewrite in_set_cons, orb_false_iff in Hs.
    destruct Hs as [Hc Hs].
    destruct st as [|m more V orig].
    + cbn [JS.Decode] in Hd. destruct (c =? JS.percent) eqn:Hpc.
      * destruct s as [|h1 [|h2 s]]; try discriminate.
        cbn [length] in Hlen.
        rewrite !in_set_cons, !orb_false_iff in Hs.
        destruct Hs as (Hh1 & Hh2 & Hs).
        destruct (JS.hex_value h1) as [a|]; [|discriminate].
        destruct (JS.hex_value h2) as [b|]; [|discriminate].
        cbn zeta in Hd.
        destruct (16 * a + b <? 128).
        -- apply fmap_Some_inv in Hd as (d' & Hd' & ->).
           apply IH in Hd'; [|lia|exact Hs|exact I].
           rewrite in_set_app, Hd', orb_false_r.
           destruct (JS.in_set (16 * a + b) rs) eqn:Hin.
           ++ rewrite !in_set_cons, Hc, Hh1, Hh2. reflexivity.
           ++ rewrite in_set_cons, orb_false_iff. split; [|reflexivity].
              apply N.eqb_neq. intros Heq.
              rewrite <- Heq, Hrs in Hin. discriminate.
        -- destruct (_ || _); [discriminate|].
           apply IH in Hd; [exact Hd|lia|exact Hs|].
           rewrite !in_set_cons, Hc, Hh1, Hh2. reflexivity.
      * apply fmap_Some_inv in Hd as (d' & Hd' & ->).
        apply IH in Hd'; [|lia|exact Hs|exact I].
        rewrite in_set_cons, Hc, Hd'. reflexivity.
    + cbn [JS.Decode] in Hd. destruct (c =? JS.percent); [|discriminate].
      destruct s as [|h1 [|h2 s]]; try discriminate.
      cbn [length] in Hlen.
      rewrite !in_set_cons, !orb_false_iff in Hs.
      destruct Hs as (Hh1 & Hh2 & Hs).
      destruct (JS.hex_value h1) as [a|]; [|discriminate].
      destruct (JS.hex_value h2) as [b|]; [|discriminate].
      cbn zeta in Hd.
      destruct (N.land _ 192 =? 128); [|discriminate].
      assert (Horig : JS.in_set JS.slash (orig ++ [c; h1; h2]) = false).
      { rewrite in_set_app, Hst, !in_set_cons, Hc, Hh1, Hh2. reflexivity. }
      destruct more as [|more].
      * destruct (JS.valid_code_point _ _) eqn:Hvalid; [|discriminate].
        apply fmap_Some_inv in Hd as (d' & Hd' & ->).
        apply IH in Hd'; [|lia|exact Hs|exact I].
        rewrite in_set_app, Hd', orb_false_r.
        apply decoded_units_no_slash; [|exact Horig].
        eapply valid_code_point_ge. exact Hvalid.
      * apply IH in Hd; [exact Hd|lia|exact Hs|exact Horig].
Qed.

Lemma decodeURI_no_slash s d :
  JS.in_set JS.slash s = false -> JS.decodeURI s = Ok d ->
  JS.in_set JS.slash d = false.
Proof.
  unfold JS.decodeURI. intros Hs Hd.
  destruct (JS.Decode _ _ s) as [d'|] eqn:Hd'; [|discriminate].
  injection Hd as <-.
  apply (Decode_no_slash JS.reservedURISet (length s) eq_refl s JS.Idle d');
    [lia | exact Hs | exact I | exact Hd'].
Qed.

(** The final path segment of a decoded name is the decoding of the final
    path segment of the name. *)
Lemma decodeURI_final_path_segment rawName docName :
  JS.decodeURI rawName = Ok docName ->
  JS.decodeURI (Spec.final_path_segment rawName) =
  Ok (Spec.final_path_segment docName).
Proof.
  unfold Spec.final_path_segment. intros Hd.
  destruct (after_last_spec JS.slash rawName) as [Hseg [Hwhole|[front Hfront]]].
  - rewrite <- Hwhole in *. rewrite Hd. f_equal. symmetry.
    apply after_last_absent. eapply decodeURI_no_slash; eauto.
  - unfold JS.decodeURI in Hd.
    destruct (JS.Decode _ _ rawName) as [d|] eqn:Hraw; [|discriminate].
    injection Hd as <-. rewrite Hfront in Hraw at 1.
    apply (Decode_slash _ (length front)) in Hraw as (d1 & d2 & -> & Hd2);
      [|lia].
    unfold JS.decodeURI at 1. rewrite Hd2. f_equal. symmetry.
    apply after_last_app_sep.
    apply (decodeURI_no_slash (Spec.after_last JS.slash rawName));
      [exact Hseg|].
    unfold JS.decodeURI. rewrite Hd2. reflexivity.
Qed.

Lemma decodeURI_leading_dot s d :
  JS.decodeURI (JS.dot :: s) = Ok d -> exists d', d = JS.dot :: d'.
Proof.
  unfold JS.decodeURI. cbn [JS.Decode].
  change (JS.dot =? JS.percent) with false. cbn match.
  destruct (JS.Decode _ _ s) as [d'|]; [|discriminate].
  intros [= <-]. eauto.
Qed.

(** C2.  The output file is named from the document's name after
    [decodeURI]: the final path segment of the decoded name, cut at its first
    ['.'], with [".tif"] appended.  For a name without ['%'] this is the
    final path segment of the name itself, cut at the first ['.'], plus
    [".tif"]; a name that [decodeURI] rejects derives no file, the script
    ends with the exception.  The name may be empty. *)
Theorem destination_filename_first_dot_split
    (tiffSubFolder rawName : jsstring) :
  (JS.in_set JS.percent rawName = false ->
   derive_outFile tiffSubFolder rawName =
   Ok (File (tiffSubFolder ++ js "/" ++ Spec.destination_filename rawName)))
  /\
  (forall sourcePath,
      JS.decodeURI rawName = Ok sourcePath ->
      derive_outFile tiffSubFolder rawName =
      Ok (File (tiffSubFolder ++ js "/" ++
                Spec.destination_filename sourcePath))) /\
  (forall e,
      JS.decodeURI rawName = Throw e ->
      derive_outFile tiffSubFolder rawName = Throw e).
Proof.
  assert (Hdecoded : forall sourcePath,
             JS.decodeURI rawName = Ok sourcePath ->
             derive_outFile tiffSubFolder rawName =
             Ok (File (tiffSubFolder ++ js "/" ++
                       Spec.destination_filename sourcePath))).
  { intros sourcePath Hdec. unfold derive_outFile. rewrite Hdec.
    unfold baseName_of. rewrite split_pop, split_head. cbn [JS.to_string].
    unfold outFile_path, Spec.destination_filename,
      Spec.truncate_at_first_dot, Spec.final_path_segment.
    rewrite <- !app_assoc. reflexivity. }
  split; [|split].
  - intros Hplain. apply Hdecoded, decodeURI_no_percent. exact Hplain.
  - exact Hdecoded.
  - intros e Hdec. unfold derive_outFile. rewrite Hdec. reflexivity.
Qed.

Lemma destination_filename_examples :
  (JS.in_set JS.percent (js "photo.CR2") = false /\
   derive_outFile (js "shoot/TIFF/") (js "photo.CR2") =
   Ok (File (js "shoot/TIFF//photo.tif"))) /\
  (JS.in_set JS.percent (js "a.b.c.CR2") = false /\
   derive_outFile (js "shoot/TIFF/") (js "a.b.c.CR2") =
   Ok (File (js "shoot/TIFF//a.tif"))) /\
  (JS.in_set JS.percent (js "noext") = false /\
   derive_outFile (js "shoot/TIFF/") (js "noext") =
   Ok (File (js "shoot/TIFF//noext.tif"))) /\
  (JS.decodeURI (js "my%20photo.CR2") = Ok (js "my photo.CR2") /\
   derive_outFile (js "shoot/TIFF/") (js "my%20photo.CR2") =
   Ok (File (js "shoot/TIFF//my photo.tif"))) /\
  (JS.decodeURI (js "%C0%AF") = Throw URIError /\
   derive_outFile (js "shoot/TIFF/") (js "%C0%AF") = Throw URIError).
Proof.
  split; [|split; [|split; [|split]]]; (split; [reflexivity|]).
  - exact (proj1 (destination_filename_first_dot_split (js "shoot/TIFF/")
                    (js "photo.CR2")) eq_refl).
  - exact (proj1 (destination_filename_first_dot_split (js "shoot/TIFF/")
                    (js "a.b.c.CR2")) eq_refl).
  - exact (proj1 (destination_filename_first_dot_split (js "shoot/TIFF/")
                    (js "noext")) eq_refl).
  - exact (proj1 (proj2 (destination_filename_first_dot_split
                           (js "shoot/TIFF/") (js "my%20photo.CR2")))
             (js "my photo.CR2") eq_refl).
  - exact (proj2 (proj2 (destination_filename_first_dot_split
                           (js "shoot/TIFF/") (js "%C0%AF")))
             URIError eq_refl).
Defined.

(** The name of the file is not what is split: an escape in it is decoded
    first, and a ['%'] that starts no escape ends the script. *)
Lemma escaped_name_destination :
  Spec.destination_filename (js "a%41.CR2") = js "a%41.tif" /\
  derive_outFile (js "shoot/TIFF/") (js "a%41.CR2") =
  Ok (File (js "shoot/TIFF//aA.tif")) /\
  derive_outFile (js "shoot/TIFF/") (js "100%.CR2") = Throw URIError /\
  let x := run RefHost.ref_host (Run_convert_imgs (js "shoot"))
             Examples.escaped_name in
  outcome x = Ok tt /\
  opened_files (trace x) = [File (js "shoot/a%41.CR2")] /\
  saved_files (trace x) = [File (js "shoot/TIFF//aA.tif")].
Proof. vm_compute. repeat split. Qed.

(** C9.  When [decodeURI] accepts the document's name and the final path
    segment of the name, or of the decoded name, begins with ['.'], the base
    name is the empty string and the output file is [".tif"] in the TIFF
    folder; so it is for every such name without ['%'].  A name that
    [decodeURI] rejects derives no file. *)
Theorem hidden_file_destination (tiffSubFolder rawName : jsstring) :
  (forall sourceName rest,
      JS.decodeURI rawName = Ok sourceName ->
      Spec.final_path_segment rawName = JS.dot :: rest \/
      Spec.final_path_segment sourceName = JS.dot :: rest ->
      baseName_of sourceName = Ok [] /\
      derive_outFile tiffSubFolder rawName =
      Ok (File (tiffSubFolder ++ js "/" ++ js ".tif"))) /\
  (forall rest,
      JS.in_set JS.percent rawName = false ->
      Spec.final_path_segment rawName = JS.dot :: rest ->
      derive_outFile tiffSubFolder rawName =
      Ok (File (tiffSubFolder ++ js "/" ++ js ".tif"))) /\
  (forall e,
      JS.decodeURI rawName = Throw e ->
      derive_outFile tiffSubFolder rawName = Throw e).
Proof.
  assert (Hhidden : forall sourceName rest,
             JS.decodeURI rawName = Ok sourceName ->
             Spec.final_path_segment rawName = JS.dot :: rest \/
             Spec.final_path_segment sourceName = JS.dot :: rest ->
             baseName_of sourceName = Ok [] /\
             derive_outFile tiffSubFolder rawName =
             Ok (File (tiffSubFolder ++ js "/" ++ js ".tif"))).
  { intros sourceName rest Hdec Hseg.
    assert (Hdot : exists rest',
               Spec.final_path_segment sourceName = JS.dot :: rest').
    { destruct Hseg as [Hraw|Hdecoded]; [|eauto].
      pose proof (decodeURI_final_path_segment _ _ Hdec) as Hfinal.
      rewrite Hraw in Hfinal.
      apply decodeURI_leading_dot in Hfinal. exact Hfinal. }
    destruct Hdot as [rest' Hdot].
    assert (Hb : baseName_of sourceName = Ok []).
    { rewrite baseName_of_spec, Hdot. reflexivity. }
    split; [exact Hb|].
    unfold derive_outFile. rewrite Hdec, Hb. unfold outFile_path.
    rewrite app_nil_r, <- app_assoc. reflexivity. }
  split; [exact Hhidden|]. split.
  - intros rest Hplain Hseg.
    apply (Hhidden rawName rest); [|left; exact Hseg].
    apply decodeURI_no_percent. exact Hplain.
  - intros e Hdec. unfold derive_outFile. rewrite Hdec. reflexivity.
Qed.

Lemma hidden_file_example :
  (JS.in_set JS.percent (js ".DS_Store") = false /\
   Spec.final_path_segment (js ".DS_Store") = JS.dot :: js "DS_Store" /\
   derive_outFile (js "shoot/TIFF/") (js ".DS_Store") =
   Ok (File (js "shoot/TIFF//.tif"))) /\
  (JS.decodeURI (js "shoot/.my%20notes") = Ok (js "shoot/.my notes") /\
   Spec.final_path_segment (js "shoot/.my%20notes") =
   JS.dot :: js "my%20notes" /\
   baseName_of (js "shoot/.my notes") = Ok [] /\
   derive_outFile (js "shoot/TIFF/") (js "shoot/.my%20notes") =
   Ok (File (js "shoot/TIFF//.tif"))) /\
  (JS.decodeURI (js "%2Ehidden") = Ok (js ".hidden") /\
   Spec.final_path_segment (js ".hidden") = JS.dot :: js "hidden" /\
   baseName_of (js ".hidden") = Ok [] /\
   derive_outFile (js "shoot/TIFF/") (js "%2Ehidden") =
   Ok (File (js "shoot/TIFF//.tif"))).
Proof.
  split; [|split].
  - split; [reflexivity|]. split; [reflexivity|].
    exact (proj1 (proj2 (hidden_file_destination (js "shoot/TIFF/")
                           (js ".DS_Store")))
             (js "DS_Store") eq_refl eq_refl).
  - split; [reflexivity|]. split; [reflexivity|].
    exact (proj1 (hidden_file_destination (js "shoot/TIFF/")
                    (js "shoot/.my%20notes"))
             (js "shoot/.my notes") (js "my%20notes") eq_refl
             (or_introl eq_refl)).
  - split; [reflexivity|]. split; [reflexivity|].
    exact (proj1 (hidden_file_destination (js "shoot/TIFF/")
                    (js "%2Ehidden"))
             (js ".hidden") (js "hidden") eq_refl (or_intror eq_refl)).
Defined.

(** A hidden file whose name holds a ['%'] that starts no escape derives no
    output file. *)
Lemma hidden_file_undecodable :
  Spec.final_path_segment (js ".100%") = JS.dot :: js "100%" /\
  derive_outFile (js "shoot/TIFF/") (js ".100%") = Throw URIError.
Proof. split; reflexivity. Qed.

(** ** Runs on an arbitrary host *)

Section Runs.
Context {W D : Type} (host : Host W D).

(** With fuel for every test of the loop condition, the loop from [i] is
    the traversal of the entries from [i] on: it never runs out. *)
Lemma for_loop_foreach (body : FileRef -> M W D unit) fuel :
  forall i l w,
    (length l - i < fuel)%nat ->
    for_loop fuel i l body w = foreach body (drop i l) w.
Proof.
  induction fuel as [|fuel IH]; intros i l w Hfuel; [lia|].
  cbn [for_loop]. destruct (Nat.ltb_spec i (length l)) as [Hi|Hi].
  - destruct (lookup_lt_is_Some_2 l i Hi) as [entry Hentry].
    unfold JS.index. rewrite Hentry, (drop_S _ _ _ Hentry).
    cbn [foreach]. unfold bind.
    destruct (body entry w) as [[[[]|e] w1] t1]; [|reflexivity].
    rewrite IH by lia. reflexivity.
  - rewrite drop_ge by lia. reflexivity.
Qed.

(** [convert_imgs] visits the listing from its second entry on. *)
Lemma convert_imgs_unfold sourceDir w :
  convert_imgs host sourceDir w =
  match getFiles host sourceDir w with
  | Some fileList => foreach (batch_body host sourceDir) (drop 1 fileList) w
  | None => (Throw TypeError, w, [])
  end.
Proof.
  unfold convert_imgs, bind, call_getFiles.
  destruct (getFiles host sourceDir w) as [fileList|]; [|reflexivity].
  rewrite for_loop_foreach by lia.
  destruct (foreach _ _ w) as [[r w2] t2]. reflexivity.
Qed.

Lemma loop_body_job_trace tiffSubFolder entry w :
  let x := loop_body host fixed_openOptions fixed_tiffSaveOptions
             tiffSubFolder entry w in
  job_trace entry (outcome x) (trace x).
Proof.
  unfold loop_body, bind, call_open, get_name, lift, call_convertProfile,
    call_saveAs, call_close, File_of, outcome, trace.
  destruct (open host entry fixed_openOptions w) as [[d|e] w1]; cbn;
    [|constructor].
  destruct (derive_outFile tiffSubFolder (name host d w1)) as [out|e]; cbn;
    [|constructor].
  destruct (convertProfile host d _ _ _ _ w1) as [[[]|e] w2]; cbn;
    [|constructor].
  destruct (saveAs host d out _ _ w2) as [[[]|e] w3]; cbn; [|constructor].
  destruct (close host d _ w3) as [r w4]; cbn. constructor.
Qed.

Lemma convert_img_job_trace inFile outFile w :
  let x := convert_img host inFile outFile w in
  job_trace (File inFile) (outcome x) (trace x).
Proof.
  unfold convert_img, bind, call_open, call_convertProfile, call_saveAs,
    call_close, outcome, trace.
  destruct (open host (File inFile) _ w) as [[d|e] w1]; cbn; [|constructor].
  destruct (convertProfile host d _ _ _ _ w1) as [[[]|e] w2]; cbn;
    [|constructor].
  destruct (saveAs host d _ _ _ w2) as [[[]|e] w3]; cbn; [|constructor].
  destruct (close host d _ w3) as [r w4]; cbn. constructor.
Qed.

Lemma foreach_batch_trace sourceDir l :
  forall w,
    let x := foreach (batch_body host sourceDir) l w in
    batch_trace l (outcome x) (trace x).
Proof.
  induction l as [|entry l IH]; intros w; [constructor|].
  cbn [foreach]. unfold bind.
  pose proof (loop_body_job_trace (sourceDir ++ js "/TIFF/") entry w) as Hjob.
  fold (batch_body host sourceDir) in Hjob. cbn zeta in Hjob.
  destruct (batch_body host sourceDir entry w) as [[[[]|e] w1] t1];
    unfold outcome, trace in Hjob; cbn in Hjob.
  - specialize (IH w1). cbn zeta in IH.
    destruct (foreach (batch_body host sourceDir) l w1) as [[r w2] t2].
    unfold outcome, trace in *; cbn in *.
    apply batch_next; assumption.
  - apply batch_stops. exact Hjob.
Qed.

End Runs.

(** ** What every trace looks like *)

Section Traces.
Context {D : Type}.
Implicit Types (t : list (Event D)) (f : FileRef) (r : Result unit).


Lemma job_trace_opened_files f r t : job_trace f r t -> opened_files t = [f].
Proof. destruct 1; reflexivity. Qed.

Lemma job_trace_convert f r t d p i bpc dither r' :
  job_trace f r t ->
  EvConvertProfile d p i bpc dither r' ∈ t ->
  p = sRGB_profile /\ i = RELATIVECOLORIMETRIC /\ bpc = true /\ dither = true.
Proof.
  destruct 1; intros Hin;
    repeat (apply elem_of_cons in Hin as [Hin|Hin];
            [inversion Hin; subst; auto |]);
    inversion Hin.
Qed.




Lemma batch_trace_convert l r t d p i bpc dither r' :
  batch_trace l r t ->
  EvConvertProfile d p i bpc dither r' ∈ t ->
  p = sRGB_profile /\ i = RELATIVECOLORIMETRIC /\ bpc = true /\ dither = true.
Proof.
  induction 1 as [|f l t r t' Hjob _ IH|f l e t Hjob]; intros Hin.
  - inversion Hin.
  - apply elem_of_app in Hin as [Hin|Hin];
      [eapply job_trace_convert; eauto | auto].
  - eapply job_trace_convert; eauto.
Qed.

Lemma batch_trace_opened_files l r t :
  batch_trace l r t ->
  opened_files t `prefix_of` l /\ (r = Ok tt -> opened_files t = l).
Proof.
  induction 1 as [|f l t r t' Hjob _ [IH1 IH2]|f l e t Hjob].
  - split; [exists []|]; reflexivity.
  - unfold opened_files in *.
    rewrite omap_app. fold (opened_files t).
    rewrite (job_trace_opened_files _ _ _ Hjob). split.
    + apply (prefix_app [f]), IH1.
    + intros Hr. cbn. f_equal. auto.
  - rewrite (job_trace_opened_files _ _ _ Hjob). split.
    + exists l. reflexivity.
    + discriminate.
Qed.

Lemma batch_trace_closed l t :
  batch_trace l (Ok tt) t -> closed_docs t = opened_docs t.
Proof.
  intros H. remember (Ok tt) as r eqn:Hr.
  induction H as [|f l t r t' Hjob _ IH|f l e t Hjob].
  - reflexivity.
  - unfold closed_docs, opened_docs in *. rewrite !omap_app.
    rewrite (IH Hr). f_equal. subst r.
    (* the job before the rest succeeded as well *)
    inversion Hjob; reflexivity.
  - discriminate.
Qed.



End Traces.

(** Every run is a batch of jobs: one job for [convert_img], the listing
    from its second entry on for [convert_imgs]. *)
Lemma convert_imgs_batch_trace {W D} (host : Host W D) sourceDir w fileList :
  getFiles host sourceDir w = Some fileList ->
  let x := convert_imgs host sourceDir w in
  batch_trace (drop 1 fileList) (outcome x) (trace x).
Proof.
  intros Hlist. cbn zeta. rewrite convert_imgs_unfold, Hlist.
  apply foreach_batch_trace.
Qed.

Lemma run_batch_trace {W D} (host : Host W D) c w :
  let x := run host c w in
  trace x = [] \/ exists l, batch_trace l (outcome x) (trace x).
Proof.
  destruct c as [inFile outFile|sourceDir]; cbn [run].
  - right. exists [File inFile].
    pose proof (convert_img_job_trace host inFile outFile w) as Hjob.
    cbn zeta in Hjob.
    destruct (outcome (convert_img host inFile outFile w)) as [[]|e].
    + rewrite <- (app_nil_r (trace _)). eapply batch_next; [eauto|constructor].
    + apply batch_stops. exact Hjob.
  - destruct (getFiles host sourceDir w) as [fileList|] eqn:Hlist.
    + right. exists (drop 1 fileList).
      apply convert_imgs_batch_trace. exact Hlist.
    + left. rewrite convert_imgs_unfold, Hlist. reflexivity.
Qed.


(** After the open of a document comes its conversion, unless the job ends
    between the two (the output name could not be derived). *)
Lemma job_trace_open_then_convert {D} f r (t : list (Event D)) i f' o d :
  job_trace f r t ->
  t !! i = Some (EvOpen f' o (Ok d)) ->
  (exists r',
      t !! S i =
      Some (EvConvertProfile d sRGB_profile RELATIVECOLORIMETRIC true true r'))
  \/ (t !! S i = None /\ exists e, r = Throw e).
Proof.
  destruct 1; destruct i as [|[|[|[|i]]]]; cbn; intros [=]; subst; eauto.
Qed.

Lemma batch_trace_open_then_convert {D} l r (t : list (Event D)) :
  batch_trace l r t ->
  forall i f' o d,
    t !! i = Some (EvOpen f' o (Ok d)) ->
    (exists r',
        t !! S i =
        Some (EvConvertProfile d sRGB_profile RELATIVECOLORIMETRIC true true
                r'))
    \/ (t !! S i = None /\ exists e, r = Throw e).
Proof.
  induction 1 as [|f l t r t' Hjob _ IH|f l e t Hjob]; intros i f' o d Hi.
  - destruct i; discriminate Hi.
  - inversion Hjob; subst. cbn [app] in *.
    destruct i as [|[|[|[|i]]]]; cbn in *;
      [injection Hi as <- <- <-; eauto | discriminate | discriminate
      | discriminate | eauto].
  - eapply job_trace_open_then_convert; eauto.
Qed.

(** C8.  On any host: every profile conversion a run makes is called with
    the profile sRGB IEC61966-2.1, relative colorimetric intent and both
    trailing flags (black point compensation, dither) true; the call after
    the open of a document is that conversion of the document, unless the
    run ends there with an exception; [convert_img] converts the document it
    opened as its second call, and so does the first job of [convert_imgs]
    once the output name is derived. *)
Theorem profile_conversion_arguments {W D} (host : Host W D) c w :
  (forall d p i bpc dither r,
      EvConvertProfile d p i bpc dither r ∈ trace (run host c w) ->
      p = js "sRGB IEC61966-2.1" /\ i = RELATIVECOLORIMETRIC /\
      bpc = true /\ dither = true) /\
  (forall k f o d,
      trace (run host c w) !! k = Some (EvOpen f o (Ok d)) ->
      (exists r,
          trace (run host c w) !! S k =
          Some (EvConvertProfile d (js "sRGB IEC61966-2.1")
                  RELATIVECOLORIMETRIC true true r))
      \/ (trace (run host c w) !! S k = None /\
          exists e, outcome (run host c w) = Throw e)) /\
  (forall inFile outFile d w1,
      c = Run_convert_img inFile outFile ->
      open host (File inFile) fixed_openOptions w = (Ok d, w1) ->
      exists t,
        trace (run host c w) =
        EvOpen (File inFile) fixed_openOptions (Ok d)
        :: EvConvertProfile d (js "sRGB IEC61966-2.1") RELATIVECOLORIMETRIC
             true true
             (convertProfile host d (js "sRGB IEC61966-2.1")
                RELATIVECOLORIMETRIC true true w1).1
        :: t) /\
  (forall sourceDir first entry others d w1 outFile,
      c = Run_convert_imgs sourceDir ->
      getFiles host sourceDir w = Some (first :: entry :: others) ->
      open host entry fixed_openOptions w = (Ok d, w1) ->
      derive_outFile (sourceDir ++ js "/TIFF/") (name host d w1) =
      Ok outFile ->
      exists t,
        trace (run host c w) =
        EvOpen entry fixed_openOptions (Ok d)
        :: EvConvertProfile d (js "sRGB IEC61966-2.1") RELATIVECOLORIMETRIC
             true true
             (convertProfile host d (js "sRGB IEC61966-2.1")
                RELATIVECOLORIMETRIC true true w1).1
        :: t).
Proof.
  split; [|split; [|split]].
  - intros d p i bpc dither r Hin.
    destruct (run_batch_trace host c w) as [Hnil|[l Hbatch]].
    + rewrite Hnil in Hin. inversion Hin.
    + eapply batch_trace_convert; eauto.
  - intros k f o d Hk.
    destruct (run_batch_trace host c w) as [Hnil|[l Hbatch]].
    + rewrite Hnil in Hk. destruct k; discriminate Hk.
    + eapply (batch_trace_open_then_convert _ _ _ Hbatch); eauto.
  - intros inFile outFile d w1 -> Hopen. cbn [run].
    unfold convert_img, bind, call_open, call_convertProfile, call_saveAs,
      call_close, trace.
    change (set_bitsPerChannel _ _) with fixed_openOptions.
    rewrite Hopen. cbn [app fst snd].
    destruct (convertProfile host d _ _ _ _ w1) as [[[]|e] w2];
      cbn [app fst snd]; [|eauto].
    destruct (saveAs host d _ _ _ w2) as [[[]|e] w3]; cbn [app fst snd];
      [|eauto].
    destruct (close host d _ w3) as [r w4]; cbn [app fst snd]. eauto.
  - intros sourceDir first entry others d w1 outFile -> Hlist Hopen Hout.
    cbn [run]. rewrite convert_imgs_unfold, Hlist.
    change (drop 1 (first :: entry :: others)) with (entry :: others).
    cbn [foreach]. unfold batch_body.
    set (tiffSubFolder := sourceDir ++ js "/TIFF/") in *.
    unfold loop_body, bind, call_open, get_name, lift,
      call_convertProfile, call_saveAs, call_close, File_of, trace.
    rewrite Hopen, Hout. cbn [app fst snd].
    destruct (convertProfile host d _ _ _ _ w1) as [[[]|e] w2];
      cbn [app fst snd]; [|eauto].
    destruct (saveAs host d _ _ _ w2) as [[[]|e] w3]; cbn [app fst snd];
      [|eauto].
    destruct (close host d _ w3) as [[[]|e] w4]; cbn [app fst snd];
      [|eauto].
    destruct (foreach _ others w4) as [[r w5] t5]. cbn [app fst snd]. eauto.
Qed.

Lemma profile_conversion_example :
  let c := Run_convert_img (js "shoot/IMG_1.CR2") (js "shoot/TIFF/IMG_1.tif") in
  let x := run RefHost.ref_host c Examples.shoot in
  open RefHost.ref_host (File (js "shoot/IMG_1.CR2")) fixed_openOptions
    Examples.shoot =
  (Ok 0%nat,
   (RefHost.ref_open (File (js "shoot/IMG_1.CR2")) fixed_openOptions
      Examples.shoot).2) /\
  (exists t,
      trace x =
      EvOpen (File (js "shoot/IMG_1.CR2")) fixed_openOptions (Ok 0%nat)
      :: EvConvertProfile 0%nat (js "sRGB IEC61966-2.1") RELATIVECOLORIMETRIC
           true true (Ok tt)
      :: t) /\
  (trace (run RefHost.ref_host (Run_convert_imgs (js "shoot")) Examples.shoot)
   !! 0%nat =
   Some (EvOpen (File (js "shoot/IMG_2.CR2")) fixed_openOptions (Ok 0%nat)) /\
   exists r,
     trace (run RefHost.ref_host (Run_convert_imgs (js "shoot"))
              Examples.shoot) !! 1%nat =
     Some (EvConvertProfile 0%nat (js "sRGB IEC61966-2.1")
             RELATIVECOLORIMETRIC true true r)).
Proof.
  cbn zeta. split; [reflexivity|]. split.
  - exact (proj1 (proj2 (proj2
             (profile_conversion_arguments RefHost.ref_host
                (Run_convert_img (js "shoot/IMG_1.CR2")
                   (js "shoot/TIFF/IMG_1.tif"))
                Examples.shoot)))
             (js "shoot/IMG_1.CR2") (js "shoot/TIFF/IMG_1.tif") 0%nat _
             eq_refl eq_refl).
  - assert (Hopen : trace (run RefHost.ref_host
                             (Run_convert_imgs (js "shoot")) Examples.shoot)
                    !! 0%nat =
                    Some (EvOpen (File (js "shoot/IMG_2.CR2"))
                            fixed_openOptions (Ok 0%nat)))
      by (vm_compute; reflexivity).
    split; [exact Hopen|].
    destruct (proj1 (proj2
               (profile_conversion_arguments RefHost.ref_host
                  (Run_convert_imgs (js "shoot")) Examples.shoot))
               0%nat _ _ _ Hopen) as [Hconv|[Hnone _]].
    + exact Hconv.
    + vm_compute in Hnone. discriminate Hnone.
Defined.

(** C1.  [convert_imgs] opens the entries of the listing from the second one
    on, in order, until a job throws: the first entry of the listing is not
    processed. *)
Theorem convert_imgs_starts_at_second_entry {W D} (host : Host W D)
    sourceDir w fileList :
  getFiles host sourceDir w = Some fileList ->
  let x := convert_imgs host sourceDir w in
  opened_files (trace x) `prefix_of` drop 1 fileList /\
  (outcome x = Ok tt -> opened_files (trace x) = drop 1 fileList).
Proof.
  intros Hlist. cbn zeta.
  apply batch_trace_opened_files, convert_imgs_batch_trace, Hlist.
Qed.

Lemma first_entry_not_converted :
  getFiles RefHost.ref_host (js "shoot") Examples.shoot =
  Some [File (js "shoot/IMG_1.CR2"); File (js "shoot/IMG_2.CR2");
        File (js "shoot/TIFF")] /\
  let x := convert_imgs RefHost.ref_host (js "shoot") Examples.shoot in
  (opened_files (trace x) `prefix_of`
     [File (js "shoot/IMG_2.CR2"); File (js "shoot/TIFF")] /\
   (outcome x = Ok tt ->
    opened_files (trace x) =
    [File (js "shoot/IMG_2.CR2"); File (js "shoot/TIFF")])) /\
  RefHost.files (world x) !! [js "shoot"; js "TIFF"; js "IMG_1.tif"] = None /\
  RefHost.files (world x) !! [js "shoot"; js "TIFF"; js "IMG_2.tif"] =
  Some (RefHost.TiffFile (Examples.converted 2)).
Proof.
  split; [reflexivity|]. cbn zeta. split.
  - exact (convert_imgs_starts_at_second_entry RefHost.ref_host (js "shoot")
             Examples.shoot _ eq_refl).
  - split; vm_compute; reflexivity.
Defined.




Lemma batch_trace_close {D} l r (t : list (Event D)) d s r' :
  batch_trace l r t -> EvClose d s r' ∈ t -> s = DONOTSAVECHANGES.
Proof.
  assert (Hjob : forall f r t, job_trace (D:=D) f r t ->
                               EvClose d s r' ∈ t -> s = DONOTSAVECHANGES).
  { intros f0 r0 t0 []; intros Hin;
      repeat (apply elem_of_cons in Hin as [Hin|Hin];
              [inversion Hin; subst; auto |]);
      inversion Hin. }
  induction 1 as [|f l t r t' H1 _ IH|f l e t H1]; intros Hin.
  - inversion Hin.
  - apply elem_of_app in Hin as [Hin|Hin]; eauto.
  - eauto.
Qed.

(** ** What a run leaves alone *)

(** The scripts act on the world through the calls in their trace and in no
    other way: a property of the world that each call of a run preserves is
    preserved by the run, whether it ends normally or with an exception. *)
Section Frame.
Context {W D : Type} (host : Host W D) (P : W -> Prop).

Ltac step_call :=
  match goal with
  | Hall : Forall (call_keeps host P) (_ :: _), HP : P _ |- _ =>
      let Hk := fresh "Hk" in
      apply Forall_cons in Hall as [Hk Hall];
      specialize (Hk _ HP); cbn beta in Hk;
      match goal with
      | Heq : _ = (_, _) |- _ => rewrite Heq in Hk
      end;
      cbn [snd] in Hk; clear HP; rename Hk into HP
  end.

Lemma convert_img_keeps inFile outFile w :
  Forall (call_keeps host P) (trace (convert_img host inFile outFile w)) ->
  P w -> P (world (convert_img host inFile outFile w)).
Proof.
  unfold convert_img, bind, call_open, call_convertProfile, call_saveAs,
    call_close, world, trace.
  destruct (open host (File inFile) _ w) as [[d|e] w1] eqn:H1;
    cbn [app fst snd].
  - destruct (convertProfile host d _ _ _ _ w1) as [[[]|e] w2] eqn:H2;
      cbn [app fst snd].
    + destruct (saveAs host d _ _ _ w2) as [[[]|e] w3] eqn:H3;
        cbn [app fst snd].
      * destruct (close host d _ w3) as [r w4] eqn:H4; cbn [app fst snd].
        intros Hall HP. do 4 step_call. exact HP.
      * intros Hall HP. do 3 step_call. exact HP.
    + intros Hall HP. do 2 step_call. exact HP.
  - intros Hall HP. step_call. exact HP.
Qed.

Lemma loop_body_keeps openOptions tiffSaveOptions tiffSubFolder entry w :
  Forall (call_keeps host P)
    (trace (loop_body host openOptions tiffSaveOptions tiffSubFolder entry w)) ->
  P w ->
  P (world (loop_body host openOptions tiffSaveOptions tiffSubFolder entry w)).
Proof.
  unfold loop_body, bind, call_open, get_name, lift, call_convertProfile,
    call_saveAs, call_close, File_of, world, trace.
  destruct (open host entry openOptions w) as [[d|e] w1] eqn:H1;
    cbn [app fst snd].
  - destruct (derive_outFile tiffSubFolder (name host d w1)) as [out|e];
      cbn [app fst snd].
    + destruct (convertProfile host d _ _ _ _ w1) as [[[]|e] w2] eqn:H2;
        cbn [app fst snd].
      * destruct (saveAs host d _ _ _ w2) as [[[]|e] w3] eqn:H3;
          cbn [app fst snd].
        -- destruct (close host d _ w3) as [r w4] eqn:H4; cbn [app fst snd].
           intros Hall HP. do 4 step_call. exact HP.
        -- intros Hall HP. do 3 step_call. exact HP.
      * intros Hall HP. do 2 step_call. exact HP.
    + intros Hall HP. step_call. exact HP.
  - intros Hall HP. step_call. exact HP.
Qed.

Lemma foreach_keeps sourceDir l :
  forall w,
    Forall (call_keeps host P)
      (trace (foreach (batch_body host sourceDir) l w)) ->
    P w -> P (world (foreach (batch_body host sourceDir) l w)).
Proof.
  induction l as [|entry l IH]; intros w Hall HP; [exact HP|].
  revert Hall. cbn [foreach]. unfold bind.
  pose proof (loop_body_keeps fixed_openOptions fixed_tiffSaveOptions
                (sourceDir ++ js "/TIFF/") entry w) as H1.
  fold (batch_body host sourceDir) in H1.
  destruct (batch_body host sourceDir entry w) as [[[[]|e] w1] t1];
    unfold world, trace in *; cbn [fst snd] in *.
  - specialize (IH w1).
    destruct (foreach (batch_body host sourceDir) l w1) as [[r w2] t2].
    cbn [fst snd] in *. intros Hall.
    apply Forall_app in Hall as [Hall1 Hall2]. auto.
  - intros Hall. auto.
Qed.

Lemma run_keeps c w :
  Forall (call_keeps host P) (trace (run host c w)) ->
  P w -> P (world (run host c w)).
Proof.
  destruct c as [inFile outFile|sourceDir]; cbn [run].
  - apply convert_img_keeps.
  - rewrite convert_imgs_unfold.
    destruct (getFiles host sourceDir w) as [fileList|]; [|auto].
    apply foreach_keeps.
Qed.

(** It is enough that opening, converting and closing without saving
    preserve the property, and that the saves the run makes do. *)
Lemma run_preserves c w :
  (forall f o w', P w' -> P (open host f o w').2) ->
  (forall d p i bpc dither w',
      P w' -> P (convertProfile host d p i bpc dither w').2) ->
  (forall d f o asCopy r w',
      EvSaveAs d f o asCopy r ∈ trace (run host c w) ->
      P w' -> P (saveAs host d f o asCopy w').2) ->
  (forall d w', P w' -> P (close host d DONOTSAVECHANGES w').2) ->
  P w -> P (world (run host c w)).
Proof.
  intros Hopen Hconvert Hsave Hclose. apply run_keeps.
  apply Forall_forall. intros [f o r|d p i bpc dither r|d f o a r|d s r] Hin;
    cbn; auto.
  - intros w'. eapply Hsave. exact Hin.
  - assert (s = DONOTSAVECHANGES) as ->; [|auto].
    destruct (run_batch_trace host c w) as [Hnil|[l Hbatch]].
    + rewrite Hnil in Hin. inversion Hin.
    + eapply batch_trace_close; eauto.
Qed.

End Frame.

(** ** Paths of derived output files *)

Lemma split_app_sep sep a b :
  JS.split sep (a ++ sep :: b) = JS.split sep a ++ JS.split sep b.
Proof.
  induction a as [|c a IH]; simpl.
  - rewrite N.eqb_refl. reflexivity.
  - destruct (c =? sep); [rewrite IH; reflexivity|].
    rewrite IH. destruct (JS.split sep a) as [|p ps] eqn:E.
    + destruct (split_not_nil _ _ E).
    + reflexivity.
Qed.

Lemma segments_app_sep a b :
  RefHost.segments (a ++ JS.slash :: b) =
  RefHost.segments a ++ RefHost.segments b.
Proof. unfold RefHost.segments. rewrite split_app_sep. apply filter_app. Qed.

Lemma segments_single s :
  s <> [] -> JS.in_set JS.slash s = false -> RefHost.segments s = [s].
Proof.
  intros Hne Hs. unfold RefHost.segments. rewrite (split_absent _ _ Hs).
  rewrite filter_cons. case_decide; [reflexivity | contradiction].
Qed.

Lemma up_to_first_in_set c d s :
  JS.in_set c s = false -> JS.in_set c (Spec.up_to_first d s) = false.
Proof.
  induction s as [|x s IH]; [reflexivity|].
  rewrite in_set_cons, orb_false_iff. intros [Hx Hs]. simpl.
  destruct (x =? d); [reflexivity|].
  rewrite in_set_cons, Hx. auto.
Qed.

(** A base name holds no ['/']. *)
Lemma baseName_no_slash docName baseName :
  baseName_of docName = Ok baseName -> JS.in_set JS.slash baseName = false.
Proof.
  rewrite baseName_of_spec. intros [= <-].
  apply up_to_first_in_set, after_last_spec.
Qed.

(** Every derived output file lies directly in the [TIFF] folder of the
    source folder. *)
Lemma derive_outFile_parent sourceDir rawName f :
  derive_outFile (sourceDir ++ js "/TIFF/") rawName = Ok f ->
  RefHost.parent (RefHost.segments (file_path f)) =
  RefHost.segments sourceDir ++ [js "TIFF"].
Proof.
  unfold derive_outFile.
  destruct (JS.decodeURI rawName) as [docName|]; [|discriminate].
  destruct (baseName_of docName) as [baseName|] eqn:Hbase; [|discriminate].
  intros [= <-]. cbn [file_path]. unfold outFile_path.
  rewrite <- !app_assoc.
  change (js "/TIFF/" ++ js "/" ++ baseName ++ js ".tif")
    with (JS.slash :: js "TIFF" ++
          JS.slash :: [] ++ JS.slash :: baseName ++ js ".tif").
  rewrite !segments_app_sep.
  rewrite (segments_single (baseName ++ js ".tif")).
  - change (RefHost.segments (js "TIFF")) with [js "TIFF"].
    change (RefHost.segments []) with (@nil jsstring).
    unfold RefHost.parent.
    rewrite app_nil_l, app_assoc. apply removelast_last.
  - intros H. apply app_eq_nil in H as [_ H]. discriminate.
  - rewrite in_set_app, (baseName_no_slash _ _ Hbase). reflexivity.
Qed.

(** ** The reference host and the file system *)

Lemma write_file_Some p x w w' :
  RefHost.write_file p x w = Some w' ->
  exists leaf listing,
    last p = Some leaf /\
    RefHost.folders w !! RefHost.parent p = Some listing /\
    RefHost.folders w !! p = None /\
    w' = {| RefHost.folders :=
              <[RefHost.parent p := RefHost.add_entry leaf listing]>
                (RefHost.folders w);
            RefHost.files := <[p := x]> (RefHost.files w);
            RefHost.docs := RefHost.docs w;
            RefHost.next_doc := RefHost.next_doc w |}.
Proof.
  unfold RefHost.write_file.
  destruct (last p) as [leaf|]; [|discriminate].
  destruct (RefHost.folders w !! RefHost.parent p) as [listing|];
    [|discriminate].
  destruct (RefHost.folders w !! p); [discriminate|].
  intros [= <-]. eauto 10.
Qed.

Lemma ref_open_fs f o w : same_fs w (RefHost.ref_open f o w).2.
Proof.
  unfold RefHost.ref_open.
  destruct (RefHost.files w !! _) as [data|]; [|split; reflexivity].
  destruct (RefHost.open_document _ data o); split; reflexivity.
Qed.

Lemma ref_convertProfile_fs d p i bpc dither w :
  same_fs w (RefHost.ref_convertProfile d p i bpc dither w).2.
Proof.
  unfold RefHost.ref_convertProfile.
  destruct (RefHost.docs w !! d) as [doc|]; [|split; reflexivity].
  destruct (RefHost.doc_profile doc); split; reflexivity.
Qed.

Lemma ref_close_fs d w :
  same_fs w (RefHost.ref_close d DONOTSAVECHANGES w).2.
Proof.
  unfold RefHost.ref_close.
  destruct (RefHost.docs w !! d); split; reflexivity.
Qed.

(** Saving writes the one file it names, and makes no folder. *)
Lemma ref_saveAs_files d f o asCopy w p :
  p <> RefHost.segments (file_path f) ->
  RefHost.files (RefHost.ref_saveAs d f o asCopy w).2 !! p =
  RefHost.files w !! p.
Proof.
  intros Hp. unfold RefHost.ref_saveAs.
  destruct (RefHost.docs w !! d) as [doc|]; [|reflexivity].
  destruct (RefHost.write_file _ _ w) as [w'|] eqn:E; [|reflexivity].
  apply write_file_Some in E as (leaf & listing & _ & _ & _ & ->).
  destruct asCopy; cbn; apply lookup_insert_ne; congruence.
Qed.

Lemma ref_saveAs_folders d f o asCopy w p :
  RefHost.folders w !! p = None ->
  RefHost.folders (RefHost.ref_saveAs d f o asCopy w).2 !! p = None.
Proof.
  intros Hp. unfold RefHost.ref_saveAs.
  destruct (RefHost.docs w !! d) as [doc|]; [|exact Hp].
  destruct (RefHost.write_file _ _ w) as [w'|] eqn:E; [|exact Hp].
  apply write_file_Some in E as (leaf & listing & _ & Hparent & _ & ->).
  destruct asCopy; cbn; (rewrite lookup_insert_ne; [exact Hp | congruence]).
Qed.

(** C4.  [convert_imgs] acts on the world through open, convertProfile,
    saveAs and close (without saving) only, and has no step that makes a
    folder: whatever these four calls preserve, such as the absence of the
    TIFF folder on a host whose saveAs makes no folder, still holds when the
    run has ended. *)
Theorem convert_imgs_preserves_host_invariants {W D} (host : Host W D)
    (P : W -> Prop) (sourceDir : jsstring) :
  (forall f o w, P w -> P (open host f o w).2) ->
  (forall d p i bpc dither w,
      P w -> P (convertProfile host d p i bpc dither w).2) ->
  (forall d f o asCopy w, P w -> P (saveAs host d f o asCopy w).2) ->
  (forall d w, P w -> P (close host d DONOTSAVECHANGES w).2) ->
  forall w, P w -> P (world (convert_imgs host sourceDir w)).
Proof.
  intros Hopen Hconvert Hsave Hclose w HP.
  apply (run_preserves host P (Run_convert_imgs sourceDir) w Hopen Hconvert
           (fun d f o asCopy r w' _ => Hsave d f o asCopy w') Hclose HP).
Qed.

Lemma TIFF_folder_not_made :
  RefHost.folders Examples.shoot_without_TIFF !! [js "shoot"; js "TIFF"] =
  None /\
  RefHost.folders
    (world (convert_imgs RefHost.ref_host (js "shoot")
              Examples.shoot_without_TIFF))
  !! [js "shoot"; js "TIFF"] = None.
Proof.
  split; [reflexivity|].
  apply (convert_imgs_preserves_host_invariants RefHost.ref_host
           (fun w => RefHost.folders w !! [js "shoot"; js "TIFF"] = None)).
  - intros f o w H. destruct (ref_open_fs f o w) as [_ Hfs].
    cbn in *. rewrite Hfs. exact H.
  - intros d p i bpc dither w H.
    destruct (ref_convertProfile_fs d p i bpc dither w) as [_ Hfs].
    cbn in *. rewrite Hfs. exact H.
  - intros d f o asCopy w H. apply ref_saveAs_folders. exact H.
  - intros d w H. destruct (ref_close_fs d w) as [_ Hfs].
    cbn in *. rewrite Hfs. exact H.
  - reflexivity.
Defined.

(** Run on a source folder without its TIFF folder, [convert_imgs] makes no
    folder: the first save throws and nothing has been written. *)
Lemma missing_TIFF_folder_stays_missing :
  let x := convert_imgs RefHost.ref_host (js "shoot")
             Examples.shoot_without_TIFF in
  RefHost.folders Examples.shoot_without_TIFF !! [js "shoot"; js "TIFF"] =
  None /\
  outcome x = Throw (HostThrow WriteError) /\
  RefHost.folders (world x) !! [js "shoot"; js "TIFF"] = None /\
  RefHost.files (world x) = RefHost.files Examples.shoot_without_TIFF.
Proof. cbn zeta. repeat split; vm_compute; reflexivity. Qed.

(** ** Where a run saves *)

Section Saves.
Context {W D : Type} (host : Host W D).

Ltac all_events :=
  repeat (apply Forall_cons; split; [cbn; auto|]); constructor.

Lemma convert_img_saves inFile outFile w :
  Forall (saves_to_target host (Run_convert_img inFile outFile) w)
    (trace (convert_img host inFile outFile w)).
Proof.
  unfold convert_img, bind, call_open, call_convertProfile, call_saveAs,
    call_close, trace.
  change (set_bitsPerChannel _ _) with fixed_openOptions.
  destruct (open host (File inFile) _ w) as [[d|e] w1] eqn:Hopen;
    cbn [app fst snd]; [|all_events].
  assert (Htarget : is_save_target host (Run_convert_img inFile outFile) w d
                      (File outFile)) by (split; eauto).
  destruct (convertProfile host d _ _ _ _ w1) as [[[]|e] w2];
    cbn [app fst snd]; [|all_events].
  destruct (saveAs host d _ _ _ w2) as [[[]|e] w3]; cbn [app fst snd];
    [|all_events].
  destruct (close host d _ w3) as [r w4]; cbn [app fst snd].
  all_events.
Qed.

Lemma loop_body_saves sourceDir entry rest w :
  Forall (saves_derived host sourceDir (entry :: rest) w)
    (trace (batch_body host sourceDir entry w)).
Proof.
  unfold batch_body at 1. set (tiffSubFolder := sourceDir ++ js "/TIFF/").
  unfold loop_body, bind, call_open, get_name, lift,
    call_convertProfile, call_saveAs, call_close, File_of, trace.
  destruct (open host entry fixed_openOptions w) as [[d|e] w1] eqn:Hopen;
    cbn [app fst snd]; [|all_events].
  destruct (derive_outFile tiffSubFolder (name host d w1))
    as [out|e] eqn:Hout; cbn [app fst snd]; [|all_events].
  assert (Hfile : derived_in_batch host sourceDir (entry :: rest) w d out).
  { exists [], entry, rest, w1. split; [reflexivity|].
    split; [reflexivity|]. split; [exact Hopen | exact Hout]. }
  destruct (convertProfile host d _ _ _ _ w1) as [[[]|e] w2];
    cbn [app fst snd]; [|all_events].
  destruct (saveAs host d out _ _ w2) as [[[]|e] w3]; cbn [app fst snd];
    [|all_events].
  destruct (close host d _ w3) as [r w4]; cbn [app fst snd].
  all_events.
Qed.

(** After a first job that ended normally, the batch goes on over the other
    entries from the world the job left. *)
Lemma foreach_cons_Ok (body : FileRef -> M W D unit) entry l w w1 t1 :
  body entry w = (Ok tt, w1, t1) ->
  outcome (foreach body (entry :: l) w) = outcome (foreach body l w1) /\
  world (foreach body (entry :: l) w) = world (foreach body l w1).
Proof.
  intros Hbody. cbn [foreach]. unfold bind. rewrite Hbody.
  destruct (foreach body l w1) as [[r w2] t2]. split; reflexivity.
Qed.

Lemma saves_derived_later sourceDir entry l w w1 t1 (e : Event D) :
  batch_body host sourceDir entry w = (Ok tt, w1, t1) ->
  saves_derived host sourceDir l w1 e ->
  saves_derived host sourceDir (entry :: l) w e.
Proof.
  intros Hbody. destruct e; cbn; auto.
  intros [(done & entry' & rest & w2 & -> & Hok & Hopen & Hout) Hcopy].
  split; [|exact Hcopy].
  destruct (foreach_cons_Ok (batch_body host sourceDir) entry done w w1 t1
              Hbody) as [Houtcome Hworld].
  exists (entry :: done), entry', rest, w2. split; [reflexivity|].
  rewrite Houtcome, Hworld. auto.
Qed.

Lemma foreach_saves sourceDir l :
  forall w,
    Forall (saves_derived host sourceDir l w)
      (trace (foreach (batch_body host sourceDir) l w)).
Proof.
  induction l as [|entry l IH]; intros w; [constructor|].
  cbn [foreach]. unfold bind.
  pose proof (loop_body_saves sourceDir entry l w) as H1.
  destruct (batch_body host sourceDir entry w) as [[[[]|e] w1] t1] eqn:Hbody;
    unfold trace in *; cbn [fst snd] in *; [|exact H1].
  specialize (IH w1).
  destruct (foreach (batch_body host sourceDir) l w1) as [[r w2] t2].
  cbn [fst snd] in *. apply Forall_app. split; [exact H1|].
  eapply Forall_impl; [exact IH|].
  intros e. eapply saves_derived_later. exact Hbody.
Qed.

Lemma run_saves c w :
  Forall (saves_to_target host c w) (trace (run host c w)).
Proof.
  destruct c as [inFile outFile|sourceDir]; cbn [run].
  - apply convert_img_saves.
  - rewrite convert_imgs_unfold.
    destruct (getFiles host sourceDir w) as [fileList|] eqn:Hlist;
      [|constructor].
    eapply Forall_impl; [apply foreach_saves|].
    intros [f o r|d p i bpc dither r|d f o a r|d s r]; cbn; auto.
    intros [Hderived Hcopy].
    split; [|exact Hcopy]. exists fileList. auto.
Qed.

End Saves.

(** C7.  On any host, a run acts on the world through its calls alone; it
    closes every document without saving, and each save it makes is a save of
    a copy to the destination of the job.  So whatever opening, converting,
    closing without saving and the saves the run makes leave as it is, such
    as a source file that is not a destination on a host whose save writes
    the path it names, is as before when the run has ended. *)
Theorem only_destination_written {W D} (host : Host W D) (P : W -> Prop)
    (c : Invocation) (w : W) :
  (forall f o w', P w' -> P (open host f o w').2) ->
  (forall d p i bpc dither w',
      P w' -> P (convertProfile host d p i bpc dither w').2) ->
  (forall d w', P w' -> P (close host d DONOTSAVECHANGES w').2) ->
  (forall d f o asCopy r w',
      EvSaveAs d f o asCopy r ∈ trace (run host c w) ->
      P w' -> P (saveAs host d f o asCopy w').2) ->
  P w ->
  P (world (run host c w)) /\
  (forall d s r,
      EvClose d s r ∈ trace (run host c w) -> s = DONOTSAVECHANGES) /\
  Forall (saves_to_target host c w) (trace (run host c w)).
Proof.
  intros Hopen Hconvert Hclose Hsave HP. split; [|split].
  - apply run_preserves; assumption.
  - intros d s r Hin.
    destruct (run_batch_trace host c w) as [Hnil|[l Hbatch]].
    + rewrite Hnil in Hin. inversion Hin.
    + eapply batch_trace_close; eauto.
  - apply run_saves.
Qed.

Lemma source_file_unchanged_example :
  let c := Run_convert_imgs (js "shoot") in
  let x := run RefHost.ref_host c Examples.brackets in
  saved_files (trace x) =
  [File (js "shoot/TIFF//a.tif"); File (js "shoot/TIFF//a.tif")] /\
  RefHost.files Examples.brackets !! [js "shoot"; js "a.b.CR2"] =
  Some (RefHost.RawFile 1) /\
  RefHost.files (world x) !! [js "shoot"; js "a.b.CR2"] =
  Some (RefHost.RawFile 1).
Proof.
  cbn zeta. split; [vm_compute; reflexivity|]. split; [reflexivity|].
  apply (only_destination_written RefHost.ref_host
           (fun w' => RefHost.files w' !! [js "shoot"; js "a.b.CR2"] =
                      Some (RefHost.RawFile 1))
           (Run_convert_imgs (js "shoot")) Examples.brackets).
  - intros f o w' H. destruct (ref_open_fs f o w') as [Hfs _].
    cbn in *. rewrite Hfs. exact H.
  - intros d q i bpc dither w' H.
    destruct (ref_convertProfile_fs d q i bpc dither w') as [Hfs _].
    cbn in *. rewrite Hfs. exact H.
  - intros d w' H. destruct (ref_close_fs d w') as [Hfs _].
    cbn in *. rewrite Hfs. exact H.
  - intros d f o asCopy r w' Hin H.
    assert (Hf : f = File (js "shoot/TIFF//a.tif")).
    { vm_compute in Hin.
      repeat (apply elem_of_cons in Hin as [Hin|Hin];
              [try discriminate Hin; injection Hin as _ Hf _ _ _;
               vm_compute; exact Hf|]).
      inversion Hin. }
    subst f. change (saveAs RefHost.ref_host) with RefHost.ref_saveAs.
    rewrite ref_saveAs_files; [exact H|].
    vm_compute. discriminate.
  - reflexivity.
Defined.

(** When [convert_img] is given its input path as output path, the save
    replaces the source file. *)
Lemma source_file_replaced_when_destination :
  let x := run RefHost.ref_host
             (Run_convert_img (js "shoot/IMG_1.CR2") (js "shoot/IMG_1.CR2"))
             Examples.shoot in
  outcome x = Ok tt /\
  RefHost.files Examples.shoot !! [js "shoot"; js "IMG_1.CR2"] =
  Some (RefHost.RawFile 1) /\
  RefHost.files (world x) !! [js "shoot"; js "IMG_1.CR2"] =
  Some (RefHost.TiffFile (Examples.converted 1)).
Proof. cbn zeta. repeat split; vm_compute; reflexivity. Qed.

(** ** One job on the reference host *)

Lemma parent_ne p leaf : last p = Some leaf -> RefHost.parent p <> p.
Proof.
  intros Hlast Heq. assert (Hp : p <> []) by (intros ->; discriminate).
  apply (f_equal length) in Heq. unfold RefHost.parent in Heq.
  rewrite removelast_firstn_len, length_take in Heq.
  destruct p; [contradiction | cbn in Heq; lia].
Qed.

(** [convert_img] succeeds exactly when the job has a plan, and then writes
    the planned TIFF at the output path. *)
Lemma ref_convert_img_plan w inFile outFile :
  let p := RefHost.segments inFile in
  let q := RefHost.segments outFile in
  let x := convert_img RefHost.ref_host inFile outFile w in
  match RefHost.job_plan w p q with
  | Some (tiff, leaf, listing) =>
      outcome x = Ok tt /\
      RefHost.files (world x) = <[q := RefHost.TiffFile tiff]> (RefHost.files w) /\
      RefHost.folders (world x) =
      <[RefHost.parent q := RefHost.add_entry leaf listing]> (RefHost.folders w)
  | None => outcome x <> Ok tt
  end.
Proof.
  cbn zeta.
  unfold convert_img, bind, call_open, call_convertProfile, call_saveAs,
    call_close, outcome, world, RefHost.job_plan.
  cbn [open convertProfile saveAs close RefHost.ref_host].
  change (set_bitsPerChannel _ _) with fixed_openOptions.
  change (set_imageCompression _ _) with fixed_tiffSaveOptions.
  unfold RefHost.ref_open. cbn [file_path].
  destruct (RefHost.files w !! RefHost.segments inFile) as [data|];
    [|cbn; discriminate].
  destruct (RefHost.open_document _ data fixed_openOptions) as [doc|e];
    [|cbn; discriminate].
  unfold RefHost.new_document, RefHost.ref_convertProfile.
  cbn [RefHost.docs RefHost.with_docs RefHost.next_doc fst snd].
  rewrite lookup_insert_eq.
  destruct (RefHost.doc_profile doc) as [prof|]; [|cbn; discriminate].
  unfold RefHost.ref_saveAs, RefHost.write_file.
  cbn [RefHost.docs RefHost.with_docs RefHost.next_doc RefHost.folders
         RefHost.files file_path fst snd].
  rewrite lookup_insert_eq.
  destruct (last (RefHost.segments outFile)) as [leaf|]; [|cbn; discriminate].
  destruct (RefHost.folders w !! RefHost.parent (RefHost.segments outFile))
    as [listing|]; [|cbn; discriminate].
  destruct (RefHost.folders w !! RefHost.segments outFile);
    [cbn; discriminate|].
  unfold RefHost.ref_close.
  cbn [RefHost.docs RefHost.with_docs RefHost.next_doc RefHost.folders
         RefHost.files fst snd].
  rewrite lookup_insert_eq. cbn. auto.
Qed.




(** *** What the reference host writes for the fixed options *)













(** What a plan says about the world it was made in. *)
Lemma job_plan_Some w p q tiff leaf listing :
  RefHost.job_plan w p q = Some (tiff, leaf, listing) <->
  exists data doc,
    RefHost.files w !! p = Some data /\
    RefHost.open_document p data fixed_openOptions = Ok doc /\
    is_Some (RefHost.doc_profile doc) /\
    tiff = RefHost.encode_tiff
             (RefHost.convert_document doc sRGB_profile RELATIVECOLORIMETRIC
                true true) fixed_tiffSaveOptions /\
    last q = Some leaf /\
    RefHost.folders w !! RefHost.parent q = Some listing /\
    RefHost.folders w !! q = None.
Proof.
  unfold RefHost.job_plan. split.
  - destruct (RefHost.files w !! p) as [data|]; [|discriminate].
    destruct (RefHost.open_document p data fixed_openOptions) as [doc|]
      eqn:Hopen; [|discriminate].
    destruct (RefHost.doc_profile doc) eqn:Hprofile; [|discriminate].
    destruct (last q); [|discriminate].
    destruct (RefHost.folders w !! RefHost.parent q); [|discriminate].
    destruct (RefHost.folders w !! q); [discriminate|].
    intros [= <- <- <-]. exists data, doc. rewrite Hprofile.
    repeat split; eauto.
  - intros (data & doc & -> & -> & [prof ->] & -> & -> & -> & ->).
    reflexivity.
Qed.

Lemma convert_document_profile doc profile i bpc dither :
  RefHost.doc_profile (RefHost.convert_document doc profile i bpc dither) =
  Some profile.
Proof. unfold RefHost.convert_document. case_bool_decide; auto. Qed.

(** Opening the TIFF written by a job and converting it again gives the
    same TIFF. *)
Lemma reopen_output p doc :
  let tiff := RefHost.encode_tiff
                (RefHost.convert_document doc sRGB_profile
                   RELATIVECOLORIMETRIC true true) fixed_tiffSaveOptions in
  exists doc',
    RefHost.open_document p (RefHost.TiffFile tiff) fixed_openOptions = Ok doc' /\
    is_Some (RefHost.doc_profile doc') /\
    RefHost.encode_tiff
      (RefHost.convert_document doc' sRGB_profile RELATIVECOLORIMETRIC
         true true) fixed_tiffSaveOptions = tiff.
Proof.
  cbn zeta. eexists. split; [reflexivity|].
  cbn [RefHost.doc_profile RefHost.tiff_profile RefHost.encode_tiff
         embedColorProfile fixed_tiffSaveOptions default from_option id].
  rewrite convert_document_profile. split; [eauto|].
  unfold RefHost.convert_document at 1.
  cbn [RefHost.doc_profile]. rewrite bool_decide_eq_true_2 by reflexivity.
  unfold RefHost.encode_tiff.
  cbn [RefHost.doc_picture RefHost.doc_bits RefHost.doc_profile
         RefHost.tiff_picture RefHost.tiff_bits].
  change (default true (embedColorProfile fixed_tiffSaveOptions)) with true.
  cbn iota. rewrite convert_document_profile. reflexivity.
Qed.

(** On the reference host, whose save replaces an existing file, a second
    run of [convert_img] with the same paths after a run that ended normally
    ends normally as well and leaves the same output file.  This is a
    property of the reference host as much as of the script: the script
    neither looks for an existing output file nor asks the host to replace
    one. *)
Lemma convert_img_twice_same_output (w : RefHost.World)
    (inFile outFile : jsstring) :
  let x1 := convert_img RefHost.ref_host inFile outFile w in
  let x2 := convert_img RefHost.ref_host inFile outFile (world x1) in
  outcome x1 = Ok tt ->
  outcome x2 = Ok tt /\
  is_Some (RefHost.files (world x1) !! RefHost.segments outFile) /\
  RefHost.files (world x2) !! RefHost.segments outFile =
  RefHost.files (world x1) !! RefHost.segments outFile /\
  RefHost.files (world x2) = RefHost.files (world x1).
Proof.
  cbn zeta. intros Hok.
  pose proof (ref_convert_img_plan w inFile outFile) as H1. cbn zeta in H1.
  destruct (RefHost.job_plan w _ _) as [[[tiff leaf] listing]|] eqn:Hplan;
    [|contradiction].
  destruct H1 as (_ & Hfiles & Hfolders).
  apply job_plan_Some in Hplan
    as (data & doc & Hdata & Hopen & Hprofile & -> & Hlast & Hparent & Hfree).
  set (p := RefHost.segments inFile) in *.
  set (q := RefHost.segments outFile) in *.
  set (w1 := world (convert_img RefHost.ref_host inFile outFile w)) in *.
  set (tiff := RefHost.encode_tiff _ _) in *.
  assert (Hplan2 : RefHost.job_plan w1 p q =
                   Some (tiff, leaf, RefHost.add_entry leaf listing)).
  { apply job_plan_Some.
    assert (Hq : RefHost.folders w1 !! q = None).
    { rewrite Hfolders, lookup_insert_ne; [exact Hfree|].
      eapply parent_ne. exact Hlast. }
    assert (Hpq : RefHost.folders w1 !! RefHost.parent q =
                  Some (RefHost.add_entry leaf listing)).
    { rewrite Hfolders. apply lookup_insert_eq. }
    destruct (decide (p = q)) as [Heq|Hne].
    - (* the output replaced the input: the second run reads the TIFF *)
      destruct (reopen_output p doc) as (doc' & Hopen' & Hprofile' & Hsame).
      exists (RefHost.TiffFile tiff), doc'.
      split; [rewrite Hfiles, Heq; apply lookup_insert_eq|].
      repeat split; auto.
    - exists data, doc. rewrite Hfiles, lookup_insert_ne by auto.
      repeat split; auto. }
  pose proof (ref_convert_img_plan w1 inFile outFile) as H2. cbn zeta in H2.
  fold p q in H2. rewrite Hplan2 in H2. destruct H2 as (Hok2 & Hfiles2 & _).
  rewrite Hfiles2, Hfiles, insert_insert_eq, lookup_insert_eq.
  repeat split; eauto.
Qed.

Lemma convert_img_twice_example :
  let x1 := convert_img RefHost.ref_host (js "shoot/IMG_1.CR2")
              (js "shoot/TIFF/IMG_1.tif") Examples.shoot in
  let x2 := convert_img RefHost.ref_host (js "shoot/IMG_1.CR2")
              (js "shoot/TIFF/IMG_1.tif") (world x1) in
  outcome x1 = Ok tt /\
  outcome x2 = Ok tt /\
  RefHost.files (world x1) !! [js "shoot"; js "TIFF"; js "IMG_1.tif"] =
  Some (RefHost.TiffFile (Examples.converted 1)) /\
  RefHost.files (world x2) !! [js "shoot"; js "TIFF"; js "IMG_1.tif"] =
  RefHost.files (world x1) !! [js "shoot"; js "TIFF"; js "IMG_1.tif"].
Proof.
  cbn zeta.
  assert (Hok : outcome (convert_img RefHost.ref_host (js "shoot/IMG_1.CR2")
                           (js "shoot/TIFF/IMG_1.tif") Examples.shoot) = Ok tt)
    by (vm_compute; reflexivity).
  destruct (convert_img_twice_same_output Examples.shoot
              (js "shoot/IMG_1.CR2") (js "shoot/TIFF/IMG_1.tif") Hok)
    as (Hok2 & _ & Hout & _).
  split; [exact Hok|]. split; [exact Hok2|].
  split; [vm_compute; reflexivity | exact Hout].
Defined.

Example convert_in_place_twice :
  let c := Run_convert_img (js "shoot/IMG_1.CR2") (js "shoot/IMG_1.CR2") in
  let x1 := run RefHost.ref_host c Examples.shoot in
  let x2 := run RefHost.ref_host c (world x1) in
  outcome x1 = Ok tt /\ outcome x2 = Ok tt /\
  RefHost.files (world x2) = RefHost.files (world x1).
Proof. cbn zeta. repeat split; vm_compute; reflexivity. Qed.

(** C10.  Two different names can derive one output file: ["a.b.CR2"] and
    ["a.c.CR2"] both give ["a.tif"].  In a batch both jobs then save to the
    same file, the later save replaces the earlier, and two source files leave
    one output file. *)
Theorem derivation_not_injective :
  js "a.b.CR2" <> js "a.c.CR2" /\
  (forall tiffSubFolder,
      derive_outFile tiffSubFolder (js "a.b.CR2") =
      Ok (File (tiffSubFolder ++ js "/" ++ js "a.tif")) /\
      derive_outFile tiffSubFolder (js "a.c.CR2") =
      Ok (File (tiffSubFolder ++ js "/" ++ js "a.tif"))) /\
  let x := convert_imgs RefHost.ref_host (js "shoot") Examples.brackets in
  outcome x = Ok tt /\
  opened_files (trace x) =
  [File (js "shoot/a.b.CR2"); File (js "shoot/a.c.CR2")] /\
  saved_files (trace x) =
  [File (js "shoot/TIFF//a.tif"); File (js "shoot/TIFF//a.tif")] /\
  RefHost.files (world x) !! [js "shoot"; js "TIFF"; js "a.tif"] =
  Some (RefHost.TiffFile (Examples.converted 2)) /\
  RefHost.folders (world x) !! [js "shoot"; js "TIFF"] = Some [js "a.tif"].
Proof.
  split; [discriminate|]. split.
  - intros tiffSubFolder.
    split.
    + exact (derive_outFile_decoded tiffSubFolder (js "a.b.CR2")
               (js "a.b.CR2") eq_refl).
    + exact (derive_outFile_decoded tiffSubFolder (js "a.c.CR2")
               (js "a.c.CR2") eq_refl).
  - cbn zeta. repeat split; vm_compute; reflexivity.
Qed.


(** * Further properties of the two scripts *)

(** ** Edge cases of the batch *)

(** X1.  When the source folder does not exist ([getFiles] gives [null]),
    [convert_imgs] throws a TypeError at the loop test: no host call is made
    and the world is as before. *)
Theorem convert_imgs_missing_folder {W D} (host : Host W D) sourceDir w :
  getFiles host sourceDir w = None ->
  convert_imgs host sourceDir w = (Throw TypeError, w, []).
Proof.
  intros Hnull. unfold convert_imgs, bind, call_getFiles.
  rewrite Hnull. reflexivity.
Qed.

Lemma convert_imgs_missing_folder_example :
  getFiles RefHost.ref_host (js "nowhere") Examples.shoot = None /\
  convert_imgs RefHost.ref_host (js "nowhere") Examples.shoot =
  (Throw TypeError, Examples.shoot, []).
Proof.
  split; [reflexivity|].
  exact (convert_imgs_missing_folder RefHost.ref_host (js "nowhere")
           Examples.shoot eq_refl).
Defined.

(** X2.  On a folder whose listing has no entry or one entry,
    [convert_imgs] converts nothing: the loop starts at index 1, so the run
    ends normally without a host call and leaves the world as it was. *)
Theorem convert_imgs_short_listing {W D} (host : Host W D)
    sourceDir w fileList :
  getFiles host sourceDir w = Some fileList ->
  (length fileList <= 1)%nat ->
  convert_imgs host sourceDir w = (Ok tt, w, []).
Proof.
  intros Hlist Hshort. unfold convert_imgs, bind, call_getFiles.
  rewrite Hlist. cbn [for_loop].
  destruct (Nat.ltb_spec 1 (length fileList)) as [Hlong|_]; [lia|].
  reflexivity.
Qed.

Lemma convert_imgs_short_listing_example :
  getFiles RefHost.ref_host (js "shoot") Examples.single =
  Some [File (js "shoot/IMG_1.CR2")] /\
  convert_imgs RefHost.ref_host (js "shoot") Examples.single =
  (Ok tt, Examples.single, []).
Proof.
  split; [reflexivity|].
  apply (convert_imgs_short_listing RefHost.ref_host (js "shoot")
           Examples.single [File (js "shoot/IMG_1.CR2")] eq_refl).
  cbn. lia.
Defined.

(** ** A run stops at the first exception *)

Lemma batch_trace_stops_at_failure {D} l e (t : list (Event D)) :
  batch_trace l (Throw e) t ->
  exists done failed rest,
    l = done ++ failed :: rest /\ opened_files t = done ++ [failed].
Proof.
  intros H. remember (Throw e) as r eqn:Hr.
  induction H as [|f l t r t' Hjob _ IH|f l e' t Hjob].
  - discriminate.
  - destruct (IH Hr) as (done & failed & rest & -> & Hopened).
    exists (f :: done), failed, rest. split; [reflexivity|].
    unfold opened_files in *. rewrite omap_app, Hopened.
    fold (opened_files t). rewrite (job_trace_opened_files _ _ _ Hjob).
    reflexivity.
  - exists [], f, l. split; [reflexivity|].
    apply (job_trace_opened_files _ _ _ Hjob).
Qed.

(** X3.  [convert_imgs] has no exception handling around a job: when the run
    ends with an exception, the entries opened are those up to and including
    the entry whose job threw, and the entries listed after it are not
    opened. *)
Theorem convert_imgs_aborts_at_first_failure {W D} (host : Host W D)
    sourceDir w fileList e :
  getFiles host sourceDir w = Some fileList ->
  outcome (convert_imgs host sourceDir w) = Throw e ->
  exists done failed rest,
    drop 1 fileList = done ++ failed :: rest /\
    opened_files (trace (convert_imgs host sourceDir w)) = done ++ [failed].
Proof.
  intros Hlist Hthrow.
  pose proof (convert_imgs_batch_trace host sourceDir w fileList Hlist)
    as Hbatch.
  cbn zeta in Hbatch. rewrite Hthrow in Hbatch.
  eapply batch_trace_stops_at_failure. exact Hbatch.
Qed.

Lemma convert_imgs_aborts_example :
  let x := convert_imgs RefHost.ref_host (js "shoot") Examples.mixed in
  outcome x = Throw (HostThrow DecodeError) /\
  opened_files (trace x) =
  [File (js "shoot/IMG_1.CR2"); File (js "shoot/notes.txt")] /\
  exists done failed rest,
    [File (js "shoot/IMG_1.CR2"); File (js "shoot/notes.txt");
     File (js "shoot/IMG_2.CR2")] = done ++ failed :: rest /\
    opened_files (trace x) = done ++ [failed].
Proof.
  cbn zeta. split; [vm_compute; reflexivity|].
  split; [vm_compute; reflexivity|].
  exact (convert_imgs_aborts_at_first_failure RefHost.ref_host (js "shoot")
           Examples.mixed _ (HostThrow DecodeError) eq_refl eq_refl).
Defined.

Lemma job_trace_returned {D} f (t : list (Event D)) :
  job_trace f (Ok tt) t -> forallb event_returned t = true.
Proof. inversion 1; reflexivity. Qed.

Lemma job_trace_returned_but_last {D} f r (t : list (Event D)) :
  job_trace f r t -> forallb event_returned (removelast t) = true.
Proof. destruct 1; reflexivity. Qed.

Lemma batch_trace_returned {D} l r (t : list (Event D)) :
  batch_trace l r t ->
  forallb event_returned (removelast t) = true /\
  (r = Ok tt -> forallb event_returned t = true).
Proof.
  induction 1 as [|f l t r t' Hjob _ [IH1 IH2]|f l e t Hjob].
  - split; reflexivity.
  - pose proof (job_trace_returned _ _ Hjob) as Ht. split.
    + destruct t' as [|e' t'].
      * rewrite app_nil_r. eapply job_trace_returned_but_last. exact Hjob.
      * rewrite removelast_app by discriminate.
        rewrite forallb_app, Ht, IH1. reflexivity.
    + intros Hr. rewrite forallb_app, Ht, (IH2 Hr). reflexivity.
  - split; [|discriminate].
    eapply job_trace_returned_but_last. exact Hjob.
Qed.

(** X4.  In every run of either script, on any host, no call is made after
    a call that threw: every call before the last one returned, and in a run
    that ends normally every call returned. *)
Theorem no_call_after_a_throw {W D} (host : Host W D) c w :
  forallb event_returned (removelast (trace (run host c w))) = true /\
  (outcome (run host c w) = Ok tt ->
   forallb event_returned (trace (run host c w)) = true).
Proof.
  destruct (run_batch_trace host c w) as [Hnil|[l Hbatch]].
  - rewrite Hnil. split; reflexivity.
  - eapply batch_trace_returned. exact Hbatch.
Qed.

Lemma no_call_after_a_throw_example :
  let x := run RefHost.ref_host (Run_convert_imgs (js "shoot"))
             Examples.brackets in
  outcome x = Ok tt /\ length (trace x) = 8%nat /\
  forallb event_returned (trace x) = true.
Proof.
  cbn zeta.
  assert (Hok : outcome (run RefHost.ref_host (Run_convert_imgs (js "shoot"))
                           Examples.brackets) = Ok tt)
    by (vm_compute; reflexivity).
  split; [exact Hok|]. split; [vm_compute; reflexivity|].
  exact (proj2 (no_call_after_a_throw RefHost.ref_host
                  (Run_convert_imgs (js "shoot")) Examples.brackets) Hok).
Defined.

(** X5.  In every run, on any host, each save is a save of a copy
    ([asCopy] true) and goes to the output file of the job of the document
    saved: to [outFile] for [convert_img], the document being the one that
    opening [inFile] gave; and for [convert_imgs] to the path derived, under
    the [TIFF] subfolder of the source folder, from the name the host gives
    the document right after it was opened from an entry of the listing past
    the first, in the world the jobs of the entries before it left. *)
Theorem saves_only_to_output_files {W D} (host : Host W D) c w :
  Forall (saves_to_target host c w) (trace (run host c w)).
Proof.
  destruct c as [inFile outFile|sourceDir].
  - apply (run_saves host (Run_convert_img inFile outFile)).
  - apply (run_saves host (Run_convert_imgs sourceDir)).
Qed.

(** ** A name that cannot be decoded *)

(** X6.  [decodeURI(doc.name)] comes after the open and before the
    conversion: when the name of the document opened for the first
    processed entry is not a well-formed URI, the batch ends there with the
    exception of [decodeURI]; the document has been opened and is left
    open, and nothing is converted or saved. *)
Theorem convert_imgs_undecodable_name {W D} (host : Host W D)
    sourceDir w first entry others d w1 e :
  getFiles host sourceDir w = Some (first :: entry :: others) ->
  open host entry fixed_openOptions w = (Ok d, w1) ->
  JS.decodeURI (name host d w1) = Throw e ->
  convert_imgs host sourceDir w =
  (Throw e, w1, [EvOpen entry fixed_openOptions (Ok d)]).
Proof.
  intros Hlist Hopen Hname. rewrite convert_imgs_unfold, Hlist.
  change (drop 1 (first :: entry :: others)) with (entry :: others).
  cbn [foreach]. unfold batch_body, loop_body, bind, call_open,
    get_name, lift, File_of, derive_outFile.
  rewrite Hopen, Hname. reflexivity.
Qed.

Lemma convert_imgs_undecodable_name_example :
  let x := convert_imgs RefHost.ref_host (js "shoot")
             Examples.stray_percent in
  JS.decodeURI (js "100%.CR2") = Throw URIError /\
  outcome x = Throw URIError /\
  trace x =
  [EvOpen (File (js "shoot/100%.CR2")) fixed_openOptions (Ok 0%nat)] /\
  is_Some (RefHost.docs (world x) !! 0%nat) /\
  RefHost.files (world x) = RefHost.files Examples.stray_percent.
Proof.
  cbn zeta. split; [vm_compute; reflexivity|].
  rewrite (convert_imgs_undecodable_name RefHost.ref_host (js "shoot")
             Examples.stray_percent (File (js "shoot/TIFF"))
             (File (js "shoot/100%.CR2")) [File (js "shoot/IMG_2.CR2")]
             0%nat
             (RefHost.ref_open (File (js "shoot/100%.CR2")) fixed_openOptions
                Examples.stray_percent).2
             URIError);
    [|reflexivity|vm_compute; reflexivity|vm_compute; reflexivity].
  split; [reflexivity|]. split; [reflexivity|].
  split; [vm_compute; eauto | vm_compute; reflexivity].
Defined.

(** ** The shape of an output path *)

(** X7.  Every output path [convert_imgs] derives is the TIFF subfolder
    string, a ['/'], a base name and [".tif"], and the base name holds
    neither a ['/'] nor a ['.']. *)
Theorem derived_outFile_shape (tiffSubFolder rawName : jsstring)
    (f : FileRef) :
  derive_outFile tiffSubFolder rawName = Ok f ->
  exists baseName,
    file_path f = tiffSubFolder ++ js "/" ++ baseName ++ js ".tif" /\
    JS.in_set JS.slash baseName = false /\
    JS.in_set JS.dot baseName = false.
Proof.
  unfold derive_outFile.
  destruct (JS.decodeURI rawName) as [docName|]; [|discriminate].
  destruct (baseName_of docName) as [baseName|] eqn:Hbase; [|discriminate].
  intros [= <-]. exists baseName. split; [|split].
  - cbn [file_path]. unfold outFile_path. rewrite <- !app_assoc. reflexivity.
  - eapply baseName_no_slash. exact Hbase.
  - rewrite baseName_of_spec in Hbase. injection Hbase as <-.
    apply up_to_first_spec.
Qed.

Lemma derived_outFile_shape_example :
  derive_outFile (js "shoot/TIFF/") (js "my%20shots/a.b.CR2") =
  Ok (File (js "shoot/TIFF//a.tif")) /\
  exists baseName,
    js "shoot/TIFF//a.tif" =
    js "shoot/TIFF/" ++ js "/" ++ baseName ++ js ".tif" /\
    JS.in_set JS.slash baseName = false /\
    JS.in_set JS.dot baseName = false.
Proof.
  split; [vm_compute; reflexivity|].
  apply (derived_outFile_shape (js "shoot/TIFF/") (js "my%20shots/a.b.CR2")
           (File (js "shoot/TIFF//a.tif"))).
  vm_compute. reflexivity.
Defined.

(** X9.  Two documents are given the same output file exactly when their
    decoded names have the same base name: the folder part of a name and
    everything after the first ['.'] of its last segment play no role, and
    nothing else can make two outputs collide. *)
Theorem same_outFile_iff_same_baseName
    (tiffSubFolder rawName1 rawName2 docName1 docName2 : jsstring) :
  JS.decodeURI rawName1 = Ok docName1 ->
  JS.decodeURI rawName2 = Ok docName2 ->
  derive_outFile tiffSubFolder rawName1 =
  derive_outFile tiffSubFolder rawName2 <->
  baseName_of docName1 = baseName_of docName2.
Proof.
  intros H1 H2. unfold derive_outFile. rewrite H1, H2.
  rewrite !baseName_of_spec. unfold outFile_path. split.
  - intros [= Hpath].
    apply app_inv_tail, app_inv_head in Hpath. congruence.
  - intros [= ->]. reflexivity.
Qed.

Lemma same_outFile_example :
  (derive_outFile (js "shoot/TIFF/") (js "a/IMG_1.CR2") =
   derive_outFile (js "shoot/TIFF/") (js "b/IMG_1.small.jpg")) /\
  (derive_outFile (js "shoot/TIFF/") (js "IMG_1.CR2") <>
   derive_outFile (js "shoot/TIFF/") (js "IMG_2.CR2")).
Proof.
  split.
  - apply (same_outFile_iff_same_baseName (js "shoot/TIFF/")
             (js "a/IMG_1.CR2") (js "b/IMG_1.small.jpg")
             (js "a/IMG_1.CR2") (js "b/IMG_1.small.jpg") eq_refl eq_refl).
    reflexivity.
  - intros Hsame.
    apply (same_outFile_iff_same_baseName (js "shoot/TIFF/")
             (js "IMG_1.CR2") (js "IMG_2.CR2")
             (js "IMG_1.CR2") (js "IMG_2.CR2") eq_refl eq_refl) in Hsame.
    vm_compute in Hsame. discriminate Hsame.
Defined.

(** X10.  Taking the base name is idempotent: a base name is its own base
    name. *)
Theorem baseName_of_idempotent (docName baseName : jsstring) :
  baseName_of docName = Ok baseName -> baseName_of baseName = Ok baseName.
Proof.
  intros Hbase.
  pose proof (baseName_no_slash _ _ Hbase) as Hslash.
  rewrite baseName_of_spec in Hbase. injection Hbase as <-.
  rewrite baseName_of_spec.
  unfold Spec.final_path_segment at 1. rewrite (after_last_absent _ _ Hslash).
  unfold Spec.truncate_at_first_dot at 1.
  rewrite up_to_first_absent; [reflexivity|]. apply up_to_first_spec.
Qed.

Lemma baseName_of_idempotent_example :
  baseName_of (js "shoot/a.b.CR2") = Ok (js "a") /\
  baseName_of (js "a") = Ok (js "a").
Proof.
  split; [reflexivity|].
  exact (baseName_of_idempotent (js "shoot/a.b.CR2") (js "a") eq_refl).
Defined.

(** ** The two scripts agree *)

(** X8.  A batch over a listing of two entries is the single-file script
    on the second entry: with the output file derived from the name of the
    document that entry opens as, [convert_imgs] ends with the same outcome,
    world and calls as [convert_img]. *)
Theorem convert_imgs_one_job_is_convert_img {W D} (host : Host W D)
    sourceDir w first inFile outFile d w1 :
  getFiles host sourceDir w = Some [first; File inFile] ->
  open host (File inFile) fixed_openOptions w = (Ok d, w1) ->
  derive_outFile (sourceDir ++ js "/TIFF/") (name host d w1) =
  Ok (File outFile) ->
  convert_imgs host sourceDir w = convert_img host inFile outFile w.
Proof.
  intros Hlist Hopen Hout. rewrite convert_imgs_unfold, Hlist.
  change (drop 1 [first; File inFile]) with [File inFile].
  cbn [foreach]. unfold batch_body.
  set (tiffSubFolder := sourceDir ++ js "/TIFF/") in *.
  unfold loop_body, convert_img, bind, call_open, get_name, lift,
    call_convertProfile, call_saveAs, call_close, File_of, ret.
  change (set_bitsPerChannel _ _) with fixed_openOptions.
  change (set_imageCompression _ _) with fixed_tiffSaveOptions.
  rewrite Hopen, Hout.
  destruct (convertProfile host d _ _ _ _ w1) as [[[]|e] w2];
    [|reflexivity].
  destruct (saveAs host d _ _ _ w2) as [[[]|e] w3]; [|reflexivity].
  destruct (close host d _ w3) as [[[]|e] w4]; reflexivity.
Qed.

Lemma convert_imgs_one_job_example :
  convert_imgs RefHost.ref_host (js "shoot") Examples.one_picture =
  convert_img RefHost.ref_host (js "shoot/IMG_1.CR2")
    (js "shoot/TIFF//IMG_1.tif") Examples.one_picture /\
  outcome (convert_imgs RefHost.ref_host (js "shoot") Examples.one_picture) =
  Ok tt.
Proof.
  split; [|vm_compute; reflexivity].
  eapply (convert_imgs_one_job_is_convert_img RefHost.ref_host (js "shoot")
            Examples.one_picture (File (js "shoot/TIFF"))
            (js "shoot/IMG_1.CR2") (js "shoot/TIFF//IMG_1.tif") 0%nat).
  - vm_compute. reflexivity.
  - reflexivity.
  - vm_compute. reflexivity.
Defined.

(** X11.  A run of [convert_img] that ends normally has made exactly four
    calls, in this order and on one document: open of the input file,
    convertProfile, saveAs to the output file, close without saving. *)
Theorem convert_img_successful_run {W D} (host : Host W D)
    inFile outFile w :
  outcome (convert_img host inFile outFile w) = Ok tt ->
  exists d,
    trace (convert_img host inFile outFile w) =
    [EvOpen (File inFile) fixed_openOptions (Ok d);
     EvConvertProfile d (js "sRGB IEC61966-2.1") RELATIVECOLORIMETRIC
       true true (Ok tt);
     EvSaveAs d (File outFile) fixed_tiffSaveOptions true (Ok tt);
     EvClose d DONOTSAVECHANGES (Ok tt)].
Proof.
  unfold convert_img, bind, call_open, call_convertProfile, call_saveAs,
    call_close, outcome, trace.
  change (set_bitsPerChannel _ _) with fixed_openOptions.
  change (set_imageCompression _ _) with fixed_tiffSaveOptions.
  destruct (open host (File inFile) _ w) as [[d|e] w1]; cbn;
    [|discriminate].
  destruct (convertProfile host d _ _ _ _ w1) as [[[]|e] w2]; cbn;
    [|discriminate].
  destruct (saveAs host d _ _ _ w2) as [[[]|e] w3]; cbn; [|discriminate].
  destruct (close host d _ w3) as [[[]|e] w4]; cbn; [|discriminate].
  intros _. exists d. reflexivity.
Qed.

Lemma convert_img_successful_run_example :
  let x := convert_img RefHost.ref_host (js "shoot/IMG_1.CR2")
             (js "shoot/TIFF/IMG_1.tif") Examples.shoot in
  outcome x = Ok tt /\
  exists d,
    trace x =
    [EvOpen (File (js "shoot/IMG_1.CR2")) fixed_openOptions (Ok d);
     EvConvertProfile d (js "sRGB IEC61966-2.1") RELATIVECOLORIMETRIC
       true true (Ok tt);
     EvSaveAs d (File (js "shoot/TIFF/IMG_1.tif")) fixed_tiffSaveOptions true
       (Ok tt);
     EvClose d DONOTSAVECHANGES (Ok tt)].
Proof.
  cbn zeta.
  assert (Hok : outcome (convert_img RefHost.ref_host (js "shoot/IMG_1.CR2")
                           (js "shoot/TIFF/IMG_1.tif") Examples.shoot) = Ok tt)
    by (vm_compute; reflexivity).
  split; [exact Hok|].
  exact (convert_img_successful_run RefHost.ref_host (js "shoot/IMG_1.CR2")
           (js "shoot/TIFF/IMG_1.tif") Examples.shoot Hok).
Defined.

Lemma batch_trace_counts {D} l (t : list (Event D)) :
  batch_trace l (Ok tt) t ->
  length (saved_files t) = length l /\ length t = (4 * length l)%nat.
Proof.
  intros H. remember (Ok tt) as r eqn:Hr.
  induction H as [|f l t r t' Hjob _ IH|f l e t Hjob].
  - split; reflexivity.
  - destruct (IH Hr) as [IH1 IH2]. unfold saved_files in *.
    rewrite omap_app, !length_app, IH1, IH2.
    inversion Hjob; subst; cbn; lia.
  - discriminate.
Qed.

(** X12.  A batch that ends normally has saved once for every entry of the
    listing but the first, with four calls for each. *)
Theorem convert_imgs_successful_run {W D} (host : Host W D)
    sourceDir w fileList :
  getFiles host sourceDir w = Some fileList ->
  outcome (convert_imgs host sourceDir w) = Ok tt ->
  length (saved_files (trace (convert_imgs host sourceDir w))) =
  (length fileList - 1)%nat /\
  length (trace (convert_imgs host sourceDir w)) =
  (4 * (length fileList - 1))%nat.
Proof.
  intros Hlist Hok.
  pose proof (convert_imgs_batch_trace host sourceDir w fileList Hlist)
    as Hbatch.
  cbn zeta in Hbatch. rewrite Hok in Hbatch.
  apply batch_trace_counts in Hbatch. rewrite length_drop in Hbatch.
  exact Hbatch.
Qed.

Lemma convert_imgs_successful_run_example :
  let x := convert_imgs RefHost.ref_host (js "shoot") Examples.brackets in
  outcome x = Ok tt /\
  length (saved_files (trace x)) = 2%nat /\ length (trace x) = 8%nat.
Proof.
  cbn zeta.
  assert (Hok : outcome (convert_imgs RefHost.ref_host (js "shoot")
                           Examples.brackets) = Ok tt)
    by (vm_compute; reflexivity).
  split; [exact Hok|].
  exact (convert_imgs_successful_run RefHost.ref_host (js "shoot")
           Examples.brackets _ eq_refl Hok).
Defined.
